(** * Airtime: the offline jump detector of [analysis/analyze_jumps.py]

    A shallow embedding of [detect_jumps_offline] (and of the part of
    [plot_threshold_sweep] that calls it), followed by the properties of
    the detection state machine.

    Numbers.  The Python code works on float64 columns.  Here every
    magnitude, rate and timestamp is a rational ([Q]): comparisons are the
    exact ones of a totally ordered field, and the constants [0.5], [5.0]
    and [min_airtime_s * 0.5] are exact.  Rounding is outside the model.
    So is NaN here; the module [Nan] repeats the detector on values that
    can be NaN, and what is said of the value of [peak_accel] is said there.
    The module [Heap] repeats it once more on a store of objects, for what
    is said of state kept between calls.

    Errors.  Everything in the loop that can raise in Python is written out
    in an error monad: an index out of range ([IndexError]), the division
    [1.0 / sample_rate] ([ZeroDivisionError]) and [.max()] of an empty slice
    ([ValueError]). *)

From Stdlib Require Import List Arith ZArith Lia Bool QArith Qminmax Qabs Qround
  Lqa Sorted.
Import ListNotations.

Open Scope Q_scope.

(** ** Exceptions and the error monad *)

Inductive exn : Type :=
| IndexError
| ZeroDivisionError
| ValueError.

Inductive result (A : Type) : Type :=
| Ok (a : A)
| Raise (e : exn).

Arguments Ok {A} a.
Arguments Raise {A} e.

Definition bind {A B : Type} (m : result A) (k : A -> result B) : result B :=
  match m with
  | Ok a => k a
  | Raise e => Raise e
  end.

Notation "x <- m ;; k" := (bind m (fun x => k))
  (at level 61, m at next level, right associativity).

(** ** Comparisons of the source, as booleans *)

(** [x > y] *)
Definition Qgtb (x y : Q) : bool := negb (Qle_bool x y).
(** [x < y] *)
Definition Qltb (x y : Q) : bool := negb (Qle_bool y x).
(** [x >= y] *)
Definition Qgeb (x y : Q) : bool := Qle_bool y x.

(** ** Data *)

(** One row of the sensor DataFrame, with the three columns the detector
    reads. *)
Record Row : Type := mkRow {
  UserAccel_Mag : Q;
  RotationRate_Z : Q;
  Time_s : Q
}.

Definition DataFrame : Type := list Row.

(** The keyword arguments of [detect_jumps_offline]. *)
Record Thresholds : Type := mkThresholds {
  takeoff_threshold : Q;
  landing_threshold : Q;
  min_airtime_s : Q;
  freefall_ceiling : Q;
  sample_rate : Q
}.

(** Their default values: 1.5, 2.5, 0.2, 0.4 and 50.0. *)
Definition default_thresholds : Thresholds :=
  {| takeoff_threshold := 3 # 2;
     landing_threshold := 5 # 2;
     min_airtime_s := 1 # 5;
     freefall_ceiling := 2 # 5;
     sample_rate := 50 |}.

(** The dict appended to [jumps]. *)
Record Jump : Type := mkJump {
  start_idx : nat;
  end_idx : nat;
  start_time : Q;
  end_time : Q;
  duration_s : Q;
  yaw_degrees : Q;
  peak_accel : Q;
  landing_impact : Q
}.

(** The value of the string variable [state]. *)
Inductive Phase : Type :=
| ground
| potential_takeoff
| airborne.

(** The local variables of [detect_jumps_offline] that live across loop
    iterations. *)
Record Loop : Type := mkLoop {
  state : Phase;
  jump_start_idx : nat;
  accumulated_yaw : Q;
  jumps : list Jump
}.

(** Lines 96-99: the values before the loop. *)
Definition init : Loop :=
  {| state := ground; jump_start_idx := 0%nat; accumulated_yaw := 0; jumps := [] |}.

(** ** Array primitives *)

(** [a[i]] for [i >= 0]. *)
Definition get (a : list Q) (i : nat) : result Q :=
  match nth_error a i with
  | Some x => Ok x
  | None => Raise IndexError
  end.

(** [x / y] on Python floats. *)
Definition divide (x y : Q) : result Q :=
  if Qeq_bool y 0 then Raise ZeroDivisionError else Ok (x / y).

(** [a[lo:hi]]: slicing clamps, and is empty when [hi <= lo]. *)
Definition slice (a : list Q) (lo hi : nat) : list Q :=
  firstn (hi - lo) (skipn lo a).

(** [v.max()]: raises on an empty array. *)
Definition array_max (v : list Q) : result Q :=
  match v with
  | [] => Raise ValueError
  | x :: xs => Ok (fold_left Qmax xs x)
  end.

(** ** The detector *)

Section Detector.

(** [np.degrees], the conversion from radians; it is taken as given. *)
Variable degrees : Q -> Q.

Section Body.

Variables accel_mag rotation_z timestamps : list Q.
Variable c : Thresholds.

(** Lines 109 and 120:
    [timestamps[i] - timestamps[i - 1] if i > 0 else 1.0 / sample_rate]. *)
Definition step_dt (i : nat) : result Q :=
  if (0 <? i)%nat then
    t <- get timestamps i ;;
    p <- get timestamps (i - 1) ;;
    Ok (t - p)
  else divide 1 (sample_rate c).

(** Lines 102-106. *)
Definition on_ground (i : nat) (st : Loop) : result Loop :=
  a <- get accel_mag i ;;
  if Qgtb a (takeoff_threshold c) then
    Ok {| state := potential_takeoff;
          jump_start_idx := i;
          accumulated_yaw := 0;
          jumps := jumps st |}
  else Ok st.

(** Lines 108-117.  The two [if]s are in sequence: the second one can
    overwrite the state the first one has set. *)
Definition on_potential_takeoff (i : nat) (st : Loop) : result Loop :=
  dt <- step_dt i ;;
  r <- get rotation_z i ;;
  let yaw := accumulated_yaw st + r * dt in
  a <- get accel_mag i ;;
  let state1 :=
    if Qltb a (freefall_ceiling c) then airborne else potential_takeoff in
  t <- get timestamps i ;;
  t0 <- get timestamps (jump_start_idx st) ;;
  let elapsed := t - t0 in
  abandon <- (if Qgtb elapsed (1 # 2)
              then a' <- get accel_mag i ;; Ok (Qgtb a' (takeoff_threshold c))
              else Ok false) ;;
  Ok {| state := if abandon then ground else state1;
        jump_start_idx := jump_start_idx st;
        accumulated_yaw := yaw;
        jumps := jumps st |}.

(** Lines 127-138: the dict of a confirmed jump. *)
Definition make_jump (i : nat) (st : Loop) (yaw elapsed : Q) : result Jump :=
  let yaw_deg := degrees yaw in
  peak <- array_max (slice accel_mag (jump_start_idx st) (i + 1)) ;;
  ts <- get timestamps (jump_start_idx st) ;;
  te <- get timestamps i ;;
  impact <- get accel_mag i ;;
  Ok {| start_idx := jump_start_idx st;
        end_idx := i;
        start_time := ts;
        end_time := te;
        duration_s := elapsed;
        yaw_degrees := yaw_deg;
        peak_accel := peak;
        landing_impact := impact |}.

(** Lines 119-142. *)
Definition on_airborne (i : nat) (st : Loop) : result Loop :=
  dt <- step_dt i ;;
  r <- get rotation_z i ;;
  let yaw := accumulated_yaw st + r * dt in
  t <- get timestamps i ;;
  t0 <- get timestamps (jump_start_idx st) ;;
  let elapsed := t - t0 in
  a <- get accel_mag i ;;
  let impact :=
    Qgtb a (landing_threshold c)
    && Qgtb elapsed (min_airtime_s c * (1 # 2)) in
  after <- (if impact then
              js <- (if Qgeb elapsed (min_airtime_s c)
                     then j <- make_jump i st yaw elapsed ;;
                          Ok (jumps st ++ [j])
                     else Ok (jumps st)) ;;
              Ok (ground, js)
            else Ok (airborne, jumps st)) ;;
  Ok {| state := if Qgtb elapsed 5 then ground else fst after;
        jump_start_idx := jump_start_idx st;
        accumulated_yaw := yaw;
        jumps := snd after |}.

(** One iteration of the [for] loop (lines 102-142). *)
Definition loop_body (i : nat) (st : Loop) : result Loop :=
  match state st with
  | ground => on_ground i st
  | potential_takeoff => on_potential_takeoff i st
  | airborne => on_airborne i st
  end.

(** The [for] loop over a list of indices. *)
Fixpoint run_loop (idx : list nat) (st : Loop) : result Loop :=
  match idx with
  | [] => Ok st
  | i :: rest => st' <- loop_body i st ;; run_loop rest st'
  end.

End Body.

(** The three columns read at lines 92-94. *)
Definition accel_mag_of (df : DataFrame) : list Q := map UserAccel_Mag df.
Definition rotation_z_of (df : DataFrame) : list Q := map RotationRate_Z df.
Definition timestamps_of (df : DataFrame) : list Q := map Time_s df.

(** One iteration on the columns of [df]. *)
Definition process (df : DataFrame) (c : Thresholds) : nat -> Loop -> result Loop :=
  loop_body (accel_mag_of df) (rotation_z_of df) (timestamps_of df) c.

(** The loop on the columns of [df], over the indices [idx], from the
    loop variables [st]. *)
Definition run_from (df : DataFrame) (c : Thresholds) (idx : list nat)
    (st : Loop) : result Loop :=
  run_loop (accel_mag_of df) (rotation_z_of df) (timestamps_of df) c idx st.

(** The loop variables after the first [k] iterations of a call. *)
Definition run_to (df : DataFrame) (c : Thresholds) (k : nat) : result Loop :=
  run_from df c (seq 0 k) init.

(** [detect_jumps_offline(df, ...)]. *)
Definition detect_jumps_offline (df : DataFrame) (c : Thresholds)
  : result (list Jump) :=
  st <- run_to df c (length (accel_mag_of df)) ;;
  Ok (jumps st).

End Detector.

(** ** The threshold sweep (lines 263-275 of [plot_threshold_sweep]) *)

(** One dict of [results]. *)
Record SweepRow : Type := mkSweepRow {
  sweep_takeoff_threshold : Q;
  sweep_landing_threshold : Q;
  num_jumps : nat;
  avg_duration : Q
}.

(** [np.mean(l) if l else 0]. *)
Definition mean_or_zero (l : list Q) : Q :=
  match l with
  | [] => 0
  | _ => fold_left Qplus l 0 / inject_Z (Z.of_nat (length l))
  end.

Section Sweep.

Variable degrees : Q -> Q.

(** The call of line 266: the two swept thresholds, the other arguments
    at their defaults. *)
Definition sweep_thresholds (to_thresh ld_thresh : Q) : Thresholds :=
  {| takeoff_threshold := to_thresh;
     landing_threshold := ld_thresh;
     min_airtime_s := min_airtime_s default_thresholds;
     freefall_ceiling := freefall_ceiling default_thresholds;
     sample_rate := sample_rate default_thresholds |}.

(** The body of the inner loop. *)
Definition sweep_cell (df : DataFrame) (to_thresh ld_thresh : Q)
  : result SweepRow :=
  js <- detect_jumps_offline degrees df (sweep_thresholds to_thresh ld_thresh) ;;
  Ok {| sweep_takeoff_threshold := to_thresh;
        sweep_landing_threshold := ld_thresh;
        num_jumps := length js;
        avg_duration := mean_or_zero (map duration_s js) |}.

(** The inner loop over [landing_range], appending to [results]. *)
Fixpoint sweep_landing (df : DataFrame) (to_thresh : Q) (landing_range : list Q)
    (results : list SweepRow) : result (list SweepRow) :=
  match landing_range with
  | [] => Ok results
  | ld_thresh :: rest =>
      row <- sweep_cell df to_thresh ld_thresh ;;
      sweep_landing df to_thresh rest (results ++ [row])
  end.

(** The outer loop over [takeoff_range]. *)
Fixpoint sweep_takeoff (df : DataFrame) (takeoff_range landing_range : list Q)
    (results : list SweepRow) : result (list SweepRow) :=
  match takeoff_range with
  | [] => Ok results
  | to_thresh :: rest =>
      results' <- sweep_landing df to_thresh landing_range results ;;
      sweep_takeoff df rest landing_range results'
  end.

(** [results] after both loops. *)
Definition threshold_sweep (df : DataFrame) (takeoff_range landing_range : list Q)
  : result (list SweepRow) :=
  sweep_takeoff df takeoff_range landing_range [].

End Sweep.

(** ** The window of [plot_jump_detail] (lines 211-214) *)

(** [int(x)] of a float: truncation toward zero. *)
Definition py_int (x : Q) : Z := Z.quot (Qnum x) (Z.pos (Qden x)).

(** A bound of a slice of a sequence of length [len]: a negative bound
    counts from the end, and every bound is clamped to [0 .. len]. *)
Definition slice_bound (len i : Z) : Z :=
  if (i <? 0)%Z then Z.max 0 (i + len) else Z.min i len.

(** [df.iloc[start:stop]]. *)
Definition iloc {A : Type} (l : list A) (start stop : Z) : list A :=
  let len := Z.of_nat (length l) in
  let lo := slice_bound len start in
  let hi := slice_bound len stop in
  firstn (Z.to_nat (hi - lo)) (skipn (Z.to_nat lo) l).

(** Lines 211-213: [context_samples], [start] and [end]. *)
Definition detail_bounds (df : DataFrame) (jump : Jump)
    (context_s sample_rate : Q) : Z * Z :=
  let context_samples := py_int (context_s * sample_rate) in
  let start := Z.max 0 (Z.of_nat (start_idx jump) - context_samples) in
  let end_ := Z.min (Z.of_nat (length df))
                    (Z.of_nat (end_idx jump) + context_samples) in
  (start, end_).

(** Line 214: [segment = df.iloc[start:end]]. *)
Definition detail_segment (df : DataFrame) (jump : Jump)
    (context_s sample_rate : Q) : DataFrame :=
  iloc df (fst (detail_bounds df jump context_s sample_rate))
          (snd (detail_bounds df jump context_s sample_rate)).

(** ** The figures of [print_jump_summary] (lines 321-349) *)




(** [np.mean(l)] of a list that is not empty. *)
Definition np_mean (l : list Q) : Q :=
  fold_left Qplus l 0 / inject_Z (Z.of_nat (length l)).

(** The figures of the last line of the table. *)
Record Totals : Type := mkTotals {
  total : nat;
  avg_airtime : Q;
  max_airtime : Q;
  max_rotation : Q
}.

(** Lines 323-325 and 343-349: nothing but "No jumps detected." for an
    empty list ([None]), otherwise the totals. *)
Definition summary_totals (jumps : list Jump) : result (option Totals) :=
  match jumps with
  | [] => Ok None
  | _ =>
      let durations := map duration_s jumps in
      let yaws := map (fun j => Qabs (yaw_degrees j)) jumps in
      longest <- array_max durations ;;
      widest <- array_max yaws ;;
      Ok (Some {| total := length jumps;
                  avg_airtime := np_mean durations;
                  max_airtime := longest;
                  max_rotation := widest |})
  end.

(** ** The detector on columns that can hold NaN

    The same function once more, on values that are a rational or NaN: an
    operation with a NaN operand gives NaN, a comparison with a NaN operand
    is false, and [.max()] gives NaN as soon as the array holds one.  The
    statements about the values of [peak_accel] are made on this model. *)

Module Nan.

Inductive float : Type :=
| nan
| fin (q : Q).

Definition lift2 (f : Q -> Q -> Q) (x y : float) : float :=
  match x, y with
  | fin a, fin b => fin (f a b)
  | _, _ => nan
  end.

Definition compare2 (f : Q -> Q -> bool) (x y : float) : bool :=
  match x, y with
  | fin a, fin b => f a b
  | _, _ => false
  end.

Definition add : float -> float -> float := lift2 Qplus.
Definition sub : float -> float -> float := lift2 Qminus.
Definition mul : float -> float -> float := lift2 Qmult.

(** [x > y], [x < y] and [x >= y]. *)
Definition gtb : float -> float -> bool := compare2 Qgtb.
Definition ltb : float -> float -> bool := compare2 Qltb.
Definition geb : float -> float -> bool := compare2 Qgeb.

(** [np.maximum], the step of [.max()]. *)
Definition maximum : float -> float -> float := lift2 Qmax.

(** [x / y] on Python floats. *)
Definition divide (x y : float) : result float :=
  match y with
  | fin b => if Qeq_bool b 0 then Raise ZeroDivisionError
             else Ok (lift2 Qdiv x y)
  | nan => Ok nan
  end.

Record Row : Type := mkRow {
  UserAccel_Mag : float;
  RotationRate_Z : float;
  Time_s : float
}.

Definition DataFrame : Type := list Row.

Record Thresholds : Type := mkThresholds {
  takeoff_threshold : float;
  landing_threshold : float;
  min_airtime_s : float;
  freefall_ceiling : float;
  sample_rate : float
}.

Definition default_thresholds : Thresholds :=
  {| takeoff_threshold := fin (3 # 2);
     landing_threshold := fin (5 # 2);
     min_airtime_s := fin (1 # 5);
     freefall_ceiling := fin (2 # 5);
     sample_rate := fin 50 |}.

Record Jump : Type := mkJump {
  start_idx : nat;
  end_idx : nat;
  start_time : float;
  end_time : float;
  duration_s : float;
  yaw_degrees : float;
  peak_accel : float;
  landing_impact : float
}.

Record Loop : Type := mkLoop {
  state : Phase;
  jump_start_idx : nat;
  accumulated_yaw : float;
  jumps : list Jump
}.

Definition init : Loop :=
  {| state := ground; jump_start_idx := 0%nat; accumulated_yaw := fin 0;
     jumps := [] |}.

Definition get (a : list float) (i : nat) : result float :=
  match nth_error a i with
  | Some x => Ok x
  | None => Raise IndexError
  end.

Definition slice (a : list float) (lo hi : nat) : list float :=
  firstn (hi - lo) (skipn lo a).

Definition array_max (v : list float) : result float :=
  match v with
  | [] => Raise ValueError
  | x :: xs => Ok (fold_left maximum xs x)
  end.

Section Detector.

Variable degrees : float -> float.

Section Body.

Variables accel_mag rotation_z timestamps : list float.
Variable c : Thresholds.

Definition step_dt (i : nat) : result float :=
  if (0 <? i)%nat then
    t <- get timestamps i ;;
    p <- get timestamps (i - 1) ;;
    Ok (sub t p)
  else divide (fin 1) (sample_rate c).

Definition on_ground (i : nat) (st : Loop) : result Loop :=
  a <- get accel_mag i ;;
  if gtb a (takeoff_threshold c) then
    Ok {| state := potential_takeoff;
          jump_start_idx := i;
          accumulated_yaw := fin 0;
          jumps := jumps st |}
  else Ok st.

Definition on_potential_takeoff (i : nat) (st : Loop) : result Loop :=
  dt <- step_dt i ;;
  r <- get rotation_z i ;;
  let yaw := add (accumulated_yaw st) (mul r dt) in
  a <- get accel_mag i ;;
  let state1 :=
    if ltb a (freefall_ceiling c) then airborne else potential_takeoff in
  t <- get timestamps i ;;
  t0 <- get timestamps (jump_start_idx st) ;;
  let elapsed := sub t t0 in
  abandon <- (if gtb elapsed (fin (1 # 2))
              then a' <- get accel_mag i ;; Ok (gtb a' (takeoff_threshold c))
              else Ok false) ;;
  Ok {| state := if abandon then ground else state1;
        jump_start_idx := jump_start_idx st;
        accumulated_yaw := yaw;
        jumps := jumps st |}.

Definition make_jump (i : nat) (st : Loop) (yaw elapsed : float) : result Jump :=
  let yaw_deg := degrees yaw in
  peak <- array_max (slice accel_mag (jump_start_idx st) (i + 1)) ;;
  ts <- get timestamps (jump_start_idx st) ;;
  te <- get timestamps i ;;
  impact <- get accel_mag i ;;
  Ok {| start_idx := jump_start_idx st;
        end_idx := i;
        start_time := ts;
        end_time := te;
        duration_s := elapsed;
        yaw_degrees := yaw_deg;
        peak_accel := peak;
        landing_impact := impact |}.

Definition on_airborne (i : nat) (st : Loop) : result Loop :=
  dt <- step_dt i ;;
  r <- get rotation_z i ;;
  let yaw := add (accumulated_yaw st) (mul r dt) in
  t <- get timestamps i ;;
  t0 <- get timestamps (jump_start_idx st) ;;
  let elapsed := sub t t0 in
  a <- get accel_mag i ;;
  let impact :=
    gtb a (landing_threshold c)
    && gtb elapsed (mul (min_airtime_s c) (fin (1 # 2))) in
  after <- (if impact then
              js <- (if geb elapsed (min_airtime_s c)
                     then j <- make_jump i st yaw elapsed ;;
                          Ok (jumps st ++ [j])
                     else Ok (jumps st)) ;;
              Ok (ground, js)
            else Ok (airborne, jumps st)) ;;
  Ok {| state := if gtb elapsed (fin 5) then ground else fst after;
        jump_start_idx := jump_start_idx st;
        accumulated_yaw := yaw;
        jumps := snd after |}.

Definition loop_body (i : nat) (st : Loop) : result Loop :=
  match state st with
  | ground => on_ground i st
  | potential_takeoff => on_potential_takeoff i st
  | airborne => on_airborne i st
  end.

Fixpoint run_loop (idx : list nat) (st : Loop) : result Loop :=
  match idx with
  | [] => Ok st
  | i :: rest => st' <- loop_body i st ;; run_loop rest st'
  end.

End Body.

Definition accel_mag_of (df : DataFrame) : list float := map UserAccel_Mag df.
Definition rotation_z_of (df : DataFrame) : list float := map RotationRate_Z df.
Definition timestamps_of (df : DataFrame) : list float := map Time_s df.

Definition process (df : DataFrame) (c : Thresholds) : nat -> Loop -> result Loop :=
  loop_body (accel_mag_of df) (rotation_z_of df) (timestamps_of df) c.

Definition run_from (df : DataFrame) (c : Thresholds) (idx : list nat)
    (st : Loop) : result Loop :=
  run_loop (accel_mag_of df) (rotation_z_of df) (timestamps_of df) c idx st.

Definition run_to (df : DataFrame) (c : Thresholds) (k : nat) : result Loop :=
  run_from df c (seq 0 k) init.

Definition detect_jumps_offline (df : DataFrame) (c : Thresholds)
  : result (list Jump) :=
  st <- run_to df c (length (accel_mag_of df)) ;;
  Ok (jumps st).

End Detector.

(** *** Vocabulary *)

(** The closed interval of indices of a jump. *)
Definition in_window (e : Jump) (k : nat) : Prop :=
  (start_idx e <= k <= end_idx e)%nat.

(** What [peak_accel] and [landing_impact] of a recorded jump are. *)
Record peak_spec (df : DataFrame) (e : Jump) : Prop := {
  ps_order : (start_idx e < end_idx e < length df)%nat;
  ps_impact : nth_error (accel_mag_of df) (end_idx e) = Some (landing_impact e);
  ps_ends : exists a b, nth_error (accel_mag_of df) (start_idx e) = Some (fin a)
                        /\ landing_impact e = fin b;
  ps_max : (forall k, in_window e k -> nth_error (accel_mag_of df) k <> Some nan) ->
           (exists k, in_window e k
                      /\ nth_error (accel_mag_of df) k = Some (peak_accel e))
           /\ (forall k, in_window e k ->
                 exists a, nth_error (accel_mag_of df) k = Some a
                           /\ geb (peak_accel e) a = true)
           /\ (exists a, nth_error (accel_mag_of df) (start_idx e) = Some a
                         /\ geb (peak_accel e) a = true)
           /\ geb (peak_accel e) (landing_impact e) = true;
  ps_nan : (exists k, in_window e k /\ nth_error (accel_mag_of df) k = Some nan) ->
           peak_accel e = nan
}.

(** Outside the ground phase the candidate started at an earlier index, at
    a sample whose magnitude is a number. *)
Definition wf (df : DataFrame) (k : nat) (st : Loop) : Prop :=
  state st <> ground ->
  (jump_start_idx st < k)%nat
  /\ exists a, nth_error (accel_mag_of df) (jump_start_idx st) = Some (fin a).

(** What the loop has recorded about a jump. *)
Record jump_ok (df : DataFrame) (e : Jump) : Prop := {
  jo_order : (start_idx e < end_idx e < length df)%nat;
  jo_start : exists a, nth_error (accel_mag_of df) (start_idx e) = Some (fin a);
  jo_impact : nth_error (accel_mag_of df) (end_idx e) = Some (landing_impact e);
  jo_finite : exists b, landing_impact e = fin b;
  jo_peak : array_max (slice (accel_mag_of df) (start_idx e) (end_idx e + 1))
            = Ok (peak_accel e)
}.

(** *** Sample data *)

(** A stand-in for [np.degrees]. *)
Definition degrees_q (x : float) : float := mul x (fin (180 / (355 # 113))).

Definition row (a rz t : float) : Row :=
  {| UserAccel_Mag := a; RotationRate_Z := rz; Time_s := t |}.

(** A jump with a NaN magnitude between the push-off and the freefall. *)
Definition df_nan : DataFrame :=
  [ row (fin 2) (fin 0) (fin 0); row nan (fin 0) (fin (1 # 4));
    row (fin (1 # 8)) (fin 0) (fin (1 # 2)); row (fin 3) (fin 0) (fin (3 # 4)) ].

(** The same jump without the NaN. *)
Definition df_clean : DataFrame :=
  [ row (fin 2) (fin 0) (fin 0); row (fin 1) (fin 0) (fin (1 # 4));
    row (fin (1 # 8)) (fin 0) (fin (1 # 2)); row (fin 3) (fin 0) (fin (3 # 4)) ].

End Nan.

(** ** Vocabulary of the specification *)

(** Every field of the configuration is strictly positive. *)
Definition positive (c : Thresholds) : Prop :=
  0 < takeoff_threshold c /\ 0 < landing_threshold c /\ 0 < min_airtime_s c
  /\ 0 < freefall_ceiling c /\ 0 < sample_rate c.

(** A result that is an exception. *)
Definition raises {A : Type} (r : result A) : Prop :=
  exists e, r = Raise e.

(** [elapsed] at sample [cur] for a candidate that started at sample [r0]. *)
Definition elapsed_between (r0 cur : Row) : Q := Time_s cur - Time_s r0.

(** The loop variables with the candidate data put back to their initial
    values. *)
Definition reset_candidate (st : Loop) : Loop :=
  {| state := state st;
     jump_start_idx := jump_start_idx init;
     accumulated_yaw := accumulated_yaw init;
     jumps := jumps st |}.

(** ** Sample data *)

(** A rational stand-in for [np.degrees], used to run the examples. *)
Definition degrees_q (x : Q) : Q := x * 180 / (355 # 113).

Definition row (a rz t : Q) : Row :=
  {| UserAccel_Mag := a; RotationRate_Z := rz; Time_s := t |}.

(** Rest, push-off, freefall, impact: one jump of 0.5 s under the default
    thresholds. *)
Definition df_jump : DataFrame :=
  [ row 1 0 0; row 2 1 (1 # 4); row (1 # 8) 1 (1 # 2); row 3 1 (3 # 4);
    row 1 0 1 ].

(** Two such jumps in a row. *)
Definition df_two_jumps : DataFrame :=
  df_jump ++
  [ row 2 0 (5 # 4); row (1 # 8) 0 (3 # 2); row 3 0 (7 # 4); row 1 0 2 ].

(** The second of these jumps, on its own. *)
Definition df_second_jump : DataFrame :=
  [ row 2 0 (5 # 4); row (1 # 8) 0 (3 # 2); row 3 0 (7 # 4); row 1 0 2 ].

(** Sustained high acceleration: nothing below the default freefall
    ceiling. *)
Definition df_running : DataFrame :=
  [ row 1 0 0; row 2 0 (1 # 4); row (8 # 5) 0 (1 # 2); row 3 0 (3 # 4);
    row (8 # 5) 0 1; row 3 0 (5 # 4) ].

(** The DataFrame [df_jump] lands at [elapsed = 1/2]: exactly the minimum
    airtime under [thresholds_min_half], exactly half of it under
    [thresholds_min_one]. *)
Definition thresholds_min_half : Thresholds :=
  {| takeoff_threshold := 3 # 2; landing_threshold := 5 # 2;
     min_airtime_s := 1 # 2; freefall_ceiling := 2 # 5; sample_rate := 50 |}.

Definition thresholds_min_one : Thresholds :=
  {| takeoff_threshold := 3 # 2; landing_threshold := 5 # 2;
     min_airtime_s := 1; freefall_ceiling := 2 # 5; sample_rate := 50 |}.

(** No field is positive. *)
Definition nonpositive_thresholds : Thresholds :=
  {| takeoff_threshold := - (1); landing_threshold := - (1);
     min_airtime_s := - (1); freefall_ceiling := - (1); sample_rate := 0 |}.

(** A positive configuration whose takeoff threshold (0.25) is below its
    freefall ceiling (0.5), and a DataFrame whose second sample (0.375, one
    second after the first) lies between the two. *)
Definition thresholds_low_takeoff : Thresholds :=
  {| takeoff_threshold := 1 # 4; landing_threshold := 5 # 2;
     min_airtime_s := 1 # 5; freefall_ceiling := 1 # 2; sample_rate := 50 |}.

Definition df_low_takeoff : DataFrame :=
  [ row (3 # 8) 0 0; row (3 # 8) 0 1 ].

(** Nothing above the default takeoff threshold. *)
Definition df_quiet : DataFrame :=
  [ row 1 0 0; row (3 # 2) 1 (1 # 4); row (1 # 2) 0 (1 # 2) ].

(** A push-off followed by samples that stay between the default freefall
    ceiling and takeoff threshold for ten seconds. *)
Definition df_linger : DataFrame :=
  [ row 2 0 0; row 1 1 1; row (3 # 2) 1 3; row (2 # 5) 1 6; row 1 1 10 ].

(** ** The detector on a store of objects

    The same function with the objects it touches kept in a store:
    DataFrames, read through their columns, and Python lists of jump dicts,
    created by [[]] and changed by [append].  A call is a function from the
    store before to the store after; what a call could leave behind for the
    next one, or change in its argument, would show in the store. *)

Module Heap.

Inductive object : Type :=
| Frame (rows : DataFrame)
| PyList (items : list Jump).

(** An object is named by its position in the store. *)
Definition addr : Type := nat.
Definition store : Type := list object.

(** A computation ends with a value, or with an exception, in a new store;
    [Stuck] is a name used for an object of the wrong kind, which Python
    rules out. *)
Inductive outcome (A : Type) : Type :=
| Done (a : A) (s : store)
| Failed (e : exn) (s : store)
| Stuck.

Arguments Done {A} a s.
Arguments Failed {A} e s.
Arguments Stuck {A}.

Definition M (A : Type) : Type := store -> outcome A.

Definition ret {A : Type} (a : A) : M A := fun s => Done a s.

Definition raise {A : Type} (e : exn) : M A := fun s => Failed e s.

Definition bind_m {A B : Type} (m : M A) (k : A -> M B) : M B :=
  fun s =>
    match m s with
    | Done a s' => k a s'
    | Failed e s' => Failed e s'
    | Stuck => Stuck
    end.

Notation "x <~ m ;; k" := (bind_m m (fun x => k))
  (at level 61, m at next level, right associativity).

(** A pure computation that can raise. *)
Definition lift {A : Type} (r : result A) : M A :=
  match r with
  | Ok a => ret a
  | Raise e => raise e
  end.

(** [[]]: a new, empty list object. *)
Definition new_list : M addr :=
  fun s => Done (length s) (s ++ [PyList []]).

(** [l.append(j)]: the list object is changed in place. *)
Definition append (l : addr) (j : Jump) : M unit :=
  fun s =>
    match nth_error s l with
    | Some (PyList items) =>
        Done tt (firstn l s ++ PyList (items ++ [j]) :: skipn (S l) s)
    | _ => Stuck
    end.

(** The list a name refers to. *)
Definition items_of (s : store) (l : addr) : option (list Jump) :=
  match nth_error s l with
  | Some (PyList items) => Some items
  | _ => None
  end.

(** [df[name].values]: a column of a DataFrame object, read in place. *)
Record column : Type := mkColumn {
  frame : addr;
  field : Row -> Q
}.

Definition column_of (df : addr) (f : Row -> Q) : M column :=
  fun s =>
    match nth_error s df with
    | Some (Frame _) => Done {| frame := df; field := f |} s
    | _ => Stuck
    end.

Definition values (col : column) : M (list Q) :=
  fun s =>
    match nth_error s (frame col) with
    | Some (Frame rows) => Done (map (field col) rows) s
    | _ => Stuck
    end.

(** [a[i]], [len(a)] and [a[lo:hi].max()]. *)
Definition item (col : column) (i : nat) : M Q :=
  a <~ values col ;; lift (get a i).

Definition len (col : column) : M nat :=
  a <~ values col ;; ret (length a).

Definition slice_max (col : column) (lo hi : nat) : M Q :=
  a <~ values col ;; lift (array_max (slice a lo hi)).

(** The local variables [state], [jump_start_idx] and [accumulated_yaw]. *)
Record Locals : Type := mkLocals {
  state : Phase;
  jump_start_idx : nat;
  accumulated_yaw : Q
}.

(** Lines 97-99. *)
Definition init : Locals :=
  {| state := ground; jump_start_idx := 0%nat; accumulated_yaw := 0 |}.

Section Detector.

Variable degrees : Q -> Q.

Section Body.

Variables accel_mag rotation_z timestamps : column.
Variable jumps : addr.
Variable c : Thresholds.

Definition step_dt (i : nat) : M Q :=
  if (0 <? i)%nat then
    t <~ item timestamps i ;;
    p <~ item timestamps (i - 1) ;;
    ret (t - p)
  else lift (divide 1 (sample_rate c)).

(** Lines 102-106. *)
Definition on_ground (i : nat) (v : Locals) : M Locals :=
  a <~ item accel_mag i ;;
  if Qgtb a (takeoff_threshold c) then
    ret {| state := potential_takeoff;
           jump_start_idx := i;
           accumulated_yaw := 0 |}
  else ret v.

(** Lines 108-117. *)
Definition on_potential_takeoff (i : nat) (v : Locals) : M Locals :=
  dt <~ step_dt i ;;
  r <~ item rotation_z i ;;
  let yaw := accumulated_yaw v + r * dt in
  a <~ item accel_mag i ;;
  let state1 :=
    if Qltb a (freefall_ceiling c) then airborne else potential_takeoff in
  t <~ item timestamps i ;;
  t0 <~ item timestamps (jump_start_idx v) ;;
  let elapsed := t - t0 in
  abandon <~ (if Qgtb elapsed (1 # 2)
              then a' <~ item accel_mag i ;; ret (Qgtb a' (takeoff_threshold c))
              else ret false) ;;
  ret {| state := if abandon then ground else state1;
         jump_start_idx := jump_start_idx v;
         accumulated_yaw := yaw |}.

(** Lines 127-138: the dict is built and appended to the list [jumps]. *)
Definition append_jump (i : nat) (v : Locals) (yaw elapsed : Q) : M unit :=
  let yaw_deg := degrees yaw in
  peak <~ slice_max accel_mag (jump_start_idx v) (i + 1) ;;
  ts <~ item timestamps (jump_start_idx v) ;;
  te <~ item timestamps i ;;
  impact <~ item accel_mag i ;;
  append jumps {| start_idx := jump_start_idx v;
                  end_idx := i;
                  start_time := ts;
                  end_time := te;
                  duration_s := elapsed;
                  yaw_degrees := yaw_deg;
                  peak_accel := peak;
                  landing_impact := impact |}.

(** Lines 119-142. *)
Definition on_airborne (i : nat) (v : Locals) : M Locals :=
  dt <~ step_dt i ;;
  r <~ item rotation_z i ;;
  let yaw := accumulated_yaw v + r * dt in
  t <~ item timestamps i ;;
  t0 <~ item timestamps (jump_start_idx v) ;;
  let elapsed := t - t0 in
  a <~ item accel_mag i ;;
  let impact :=
    Qgtb a (landing_threshold c)
    && Qgtb elapsed (min_airtime_s c * (1 # 2)) in
  state1 <~ (if impact then
               _ <~ (if Qgeb elapsed (min_airtime_s c)
                     then append_jump i v yaw elapsed
                     else ret tt) ;;
               ret ground
             else ret airborne) ;;
  ret {| state := if Qgtb elapsed 5 then ground else state1;
         jump_start_idx := jump_start_idx v;
         accumulated_yaw := yaw |}.

Definition loop_body (i : nat) (v : Locals) : M Locals :=
  match state v with
  | ground => on_ground i v
  | potential_takeoff => on_potential_takeoff i v
  | airborne => on_airborne i v
  end.

Fixpoint run_loop (idx : list nat) (v : Locals) : M Locals :=
  match idx with
  | [] => ret v
  | i :: rest => v' <~ loop_body i v ;; run_loop rest v'
  end.

End Body.

(** [detect_jumps_offline(df, ...)] on the DataFrame object [df]: the
    columns of lines 92-94, the new list of line 96, the loop, and the list
    returned at line 144. *)
Definition detect_jumps_offline (df : addr) (c : Thresholds) : M addr :=
  accel_mag <~ column_of df UserAccel_Mag ;;
  rotation_z <~ column_of df RotationRate_Z ;;
  timestamps <~ column_of df Time_s ;;
  jumps <~ new_list ;;
  n <~ len accel_mag ;;
  _ <~ run_loop accel_mag rotation_z timestamps jumps c (seq 0 n) init ;;
  ret jumps.

(** Two calls one after the other on the same DataFrame object, as two
    iterations of the threshold sweep make them. *)
Definition detect_twice (df : addr) (c1 c2 : Thresholds) : M (addr * addr) :=
  jumps1 <~ detect_jumps_offline df c1 ;;
  jumps2 <~ detect_jumps_offline df c2 ;;
  ret (jumps1, jumps2).

End Detector.

(** *** Sample data *)

(** A store with a list left by someone else and the DataFrame
    [df_two_jumps]. *)
Definition sample_store : store :=
  [ PyList []; Frame df_two_jumps ].

End Heap.

(** The local variables of [Heap] that go with the loop variables [st]. *)
Definition locals_of (st : Loop) : Heap.Locals :=
  {| Heap.state := state st;
     Heap.jump_start_idx := jump_start_idx st;
     Heap.accumulated_yaw := accumulated_yaw st |}.

(** ** The value of an iteration when every lookup succeeds

    These three functions give, without the error monad, the loop variables
    after one iteration; [process_cases] below proves that [process] returns
    exactly them in every state the loop can be in. *)

Definition next_ground (c : Thresholds) (i : nat) (st : Loop) (cur : Row) : Loop :=
  if Qgtb (UserAccel_Mag cur) (takeoff_threshold c) then
    {| state := potential_takeoff; jump_start_idx := i;
       accumulated_yaw := 0; jumps := jumps st |}
  else st.

Definition next_potential_takeoff (c : Thresholds) (st : Loop)
    (cur prev r0 : Row) : Loop :=
  {| state :=
       if Qgtb (elapsed_between r0 cur) (1 # 2)
          && Qgtb (UserAccel_Mag cur) (takeoff_threshold c)
       then ground
       else if Qltb (UserAccel_Mag cur) (freefall_ceiling c) then airborne
            else potential_takeoff;
     jump_start_idx := jump_start_idx st;
     accumulated_yaw :=
       accumulated_yaw st + RotationRate_Z cur * (Time_s cur - Time_s prev);
     jumps := jumps st |}.

(** The impact gate of line 125. *)
Definition impact_gate (c : Thresholds) (cur r0 : Row) : bool :=
  Qgtb (UserAccel_Mag cur) (landing_threshold c)
  && Qgtb (elapsed_between r0 cur) (min_airtime_s c * (1 # 2)).

Definition confirmed_jump (degrees : Q -> Q) (i : nat) (st : Loop)
    (cur prev r0 : Row) (peak : Q) : Jump :=
  {| start_idx := jump_start_idx st;
     end_idx := i;
     start_time := Time_s r0;
     end_time := Time_s cur;
     duration_s := elapsed_between r0 cur;
     yaw_degrees :=
       degrees (accumulated_yaw st
                + RotationRate_Z cur * (Time_s cur - Time_s prev));
     peak_accel := peak;
     landing_impact := UserAccel_Mag cur |}.

Definition next_airborne (degrees : Q -> Q) (c : Thresholds) (i : nat)
    (st : Loop) (cur prev r0 : Row) (peak : Q) : Loop :=
  {| state :=
       if Qgtb (elapsed_between r0 cur) 5 then ground
       else if impact_gate c cur r0 then ground else airborne;
     jump_start_idx := jump_start_idx st;
     accumulated_yaw :=
       accumulated_yaw st + RotationRate_Z cur * (Time_s cur - Time_s prev);
     jumps :=
       if impact_gate c cur r0 && Qgeb (elapsed_between r0 cur) (min_airtime_s c)
       then jumps st ++ [confirmed_jump degrees i st cur prev r0 peak]
       else jumps st |}.

(** ** Invariants of the loop *)

(** Outside the ground phase the candidate started at an earlier index. *)
Definition wf (k : nat) (st : Loop) : Prop :=
  state st <> ground -> (jump_start_idx st < k)%nat.

(** [e1] ends before [e2] starts. *)
Definition before (e1 e2 : Jump) : Prop := (end_idx e1 < start_idx e2)%nat.

(** What a recorded jump says about the DataFrame it was detected in. *)
Record jump_ok (df : DataFrame) (c : Thresholds) (e : Jump) : Prop := {
  jo_order : (start_idx e < end_idx e)%nat;
  jo_range : (end_idx e < length df)%nat;
  jo_start_time : nth_error (timestamps_of df) (start_idx e) = Some (start_time e);
  jo_end_time : nth_error (timestamps_of df) (end_idx e) = Some (end_time e);
  jo_duration : duration_s e = end_time e - start_time e;
  jo_min_airtime : min_airtime_s c <= duration_s e;
  jo_impact : nth_error (accel_mag_of df) (end_idx e) = Some (landing_impact e);
  jo_peak : array_max (slice (accel_mag_of df) (start_idx e) (end_idx e + 1))
            = Ok (peak_accel e)
}.

(** The invariant on the list of jumps after [k] iterations. *)
Definition jumps_inv (df : DataFrame) (c : Thresholds) (k : nat) (st : Loop) : Prop :=
  Forall (fun e => jump_ok df c e /\ (end_idx e < k)%nat) (jumps st)
  /\ (state st <> ground ->
      Forall (fun e => (end_idx e < jump_start_idx st)%nat) (jumps st))
  /\ StronglySorted before (jumps st).

(** Timestamps never decrease along the DataFrame. *)
Definition monotone (df : DataFrame) : Prop :=
  forall i j ri rj, (i <= j)%nat ->
    nth_error df i = Some ri -> nth_error df j = Some rj ->
    Time_s ri <= Time_s rj.

(** Two loop states that differ at most in stale candidate data: the same
    phase and jumps, and the same candidate whenever one is open. *)
Definition same_behaviour (s1 s2 : Loop) : Prop :=
  state s1 = state s2 /\ jumps s1 = jumps s2
  /\ (state s1 <> ground -> s1 = s2).

(** Agreement of two results up to [same_behaviour]. *)
Definition result_agree (r1 r2 : result Loop) : Prop :=
  match r1, r2 with
  | Ok s1, Ok s2 => same_behaviour s1 s2
  | Raise e1, Raise e2 => e1 = e2
  | _, _ => False
  end.

(** ** Vocabulary of the further properties *)

(** The yaw added by iteration [k]: [rotation_z[k] * dt], with [dt] the
    time since the previous sample. *)
Definition yaw_increment (df : DataFrame) (k : nat) : Q :=
  match nth_error df k, nth_error df (k - 1) with
  | Some cur, Some prev => RotationRate_Z cur * (Time_s cur - Time_s prev)
  | _, _ => 0
  end.

(** The increments of the iterations [s + 1 .. k - 1], summed from [0] in
    that order. *)
Definition yaw_integral (df : DataFrame) (s k : nat) : Q :=
  fold_left (fun acc i => acc + yaw_increment df i) (seq (S s) (k - S s)) 0.

(** The samples a recorded jump is made of: a push-off above the takeoff
    threshold at [start_idx], a sample below the freefall ceiling strictly
    inside, and an impact above the landing threshold at [end_idx]. *)
Record jump_anatomy (df : DataFrame) (c : Thresholds) (e : Jump) : Prop := {
  ja_takeoff : exists r, nth_error df (start_idx e) = Some r
                         /\ takeoff_threshold c < UserAccel_Mag r;
  ja_freefall : exists f r, (start_idx e < f < end_idx e)%nat
                            /\ nth_error df f = Some r
                            /\ UserAccel_Mag r < freefall_ceiling c;
  ja_landing : landing_threshold c < landing_impact e;
  ja_gate : min_airtime_s c * (1 # 2) < duration_s e
}.

(** The yaw of a recorded jump is the conversion of the increments of the
    samples after [start_idx] up to and including [end_idx]. *)
Definition jump_yaw (degrees : Q -> Q) (df : DataFrame) (e : Jump) : Prop :=
  yaw_degrees e = degrees (yaw_integral df (start_idx e) (S (end_idx e))).

(** The invariant behind [jump_anatomy] and [jump_yaw] after [k]
    iterations. *)
Definition details_inv (degrees : Q -> Q) (df : DataFrame) (c : Thresholds)
    (k : nat) (st : Loop) : Prop :=
  (state st <> ground ->
   accumulated_yaw st = yaw_integral df (jump_start_idx st) k
   /\ exists r, nth_error df (jump_start_idx st) = Some r
                /\ takeoff_threshold c < UserAccel_Mag r)
  /\ (state st = airborne ->
      exists f r, (jump_start_idx st < f < k)%nat
                  /\ nth_error df f = Some r
                  /\ UserAccel_Mag r < freefall_ceiling c)
  /\ Forall (fun e => jump_anatomy df c e /\ jump_yaw degrees df e) (jumps st).

(** A jump with its two indices moved by [n] samples. *)
Definition shift_jump (n : nat) (e : Jump) : Jump :=
  {| start_idx := n + start_idx e;
     end_idx := n + end_idx e;
     start_time := start_time e;
     end_time := end_time e;
     duration_s := duration_s e;
     yaw_degrees := yaw_degrees e;
     peak_accel := peak_accel e;
     landing_impact := landing_impact e |}.

(** The loop variables [s2] of a run on a DataFrame alone against the loop
    variables [s] of the run on that DataFrame appended to [n] samples that
    gave the jumps [js1]. *)
Definition joined (n : nat) (js1 : list Jump) (s2 s : Loop) : Prop :=
  state s = state s2
  /\ jumps s = js1 ++ map (shift_jump n) (jumps s2)
  /\ (state s2 <> ground ->
      jump_start_idx s = (n + jump_start_idx s2)%nat
      /\ accumulated_yaw s = accumulated_yaw s2).

(** The thresholds with another [sample_rate]. *)
Definition with_sample_rate (c : Thresholds) (rate : Q) : Thresholds :=
  {| takeoff_threshold := takeoff_threshold c;
     landing_threshold := landing_threshold c;
     min_airtime_s := min_airtime_s c;
     freefall_ceiling := freefall_ceiling c;
     sample_rate := rate |}.

(** * Properties *)

(** ** Comparisons *)

Lemma Qgtb_true x y : Qgtb x y = true <-> y < x.
Proof.
  unfold Qgtb. rewrite negb_true_iff, <- not_true_iff_false, Qle_bool_iff.
  split; [apply Qnot_le_lt | apply Qlt_not_le].
Qed.

Lemma Qgtb_false x y : Qgtb x y = false <-> x <= y.
Proof. unfold Qgtb. rewrite negb_false_iff. apply Qle_bool_iff. Qed.

Lemma Qltb_true x y : Qltb x y = true <-> x < y.
Proof. apply Qgtb_true. Qed.

Lemma Qltb_false x y : Qltb x y = false <-> y <= x.
Proof. apply Qgtb_false. Qed.

Lemma Qgeb_true x y : Qgeb x y = true <-> y <= x.
Proof. apply Qle_bool_iff. Qed.

Lemma Qgeb_false x y : Qgeb x y = false <-> x < y.
Proof.
  unfold Qgeb. rewrite <- not_true_iff_false, Qle_bool_iff.
  split; [apply Qnot_le_lt | apply Qlt_not_le].
Qed.

(** ** Arrays *)

Lemma get_map (f : Row -> Q) (df : DataFrame) (i : nat) (r : Row) :
  nth_error df i = Some r -> get (map f df) i = Ok (f r).
Proof.
  intros H. unfold get. rewrite nth_error_map, H. reflexivity.
Qed.

Lemma nth_error_col (f : Row -> Q) (df : DataFrame) (i : nat) (x : Q) :
  nth_error (map f df) i = Some x <->
  exists r, nth_error df i = Some r /\ f r = x.
Proof.
  rewrite nth_error_map. destruct (nth_error df i) as [r|]; simpl; split.
  - intros [= <-]. eauto.
  - intros (r' & [= <-] & <-). reflexivity.
  - discriminate.
  - intros (r' & [=] & _).
Qed.

Lemma row_at (df : DataFrame) (i : nat) :
  (i < length df)%nat -> exists r, nth_error df i = Some r.
Proof.
  intros H. destruct (nth_error df i) as [r|] eqn:E; [eauto|].
  apply nth_error_None in E. lia.
Qed.

Lemma Qmax_cases (x y : Q) : Qmax x y = x \/ Qmax x y = y.
Proof.
  unfold Qmax, GenericMinMax.gmax. destruct (x ?= y); auto.
Qed.

(** The left fold of [Qmax] is an upper bound of everything folded and is
    one of the values folded. *)
Lemma fold_max_spec (xs : list Q) (x : Q) :
  In (fold_left Qmax xs x) (x :: xs)
  /\ Forall (fun y => y <= fold_left Qmax xs x) (x :: xs).
Proof.
  revert x. induction xs as [|y ys IH]; intros x; simpl.
  - split; [auto | repeat constructor; apply Qle_refl].
  - destruct (IH (Qmax x y)) as [Hin Hall].
    apply Forall_cons_iff in Hall. destruct Hall as [Hm Hys]. split.
    + destruct Hin as [Hin|Hin]; [|right; right; exact Hin].
      simpl. rewrite <- Hin.
      destruct (Qmax_cases x y) as [E|E]; rewrite E; auto.
    + constructor; [|constructor; [|exact Hys]].
      * eapply Qle_trans; [apply Q.le_max_l | exact Hm].
      * eapply Qle_trans; [apply Q.le_max_r | exact Hm].
Qed.

Lemma array_max_spec (v : list Q) (m : Q) :
  array_max v = Ok m -> In m v /\ Forall (fun y => y <= m) v.
Proof.
  destruct v as [|x xs]; simpl; [discriminate|].
  intros [= <-]. apply fold_max_spec.
Qed.

Lemma nth_error_slice (a : list Q) (lo hi j : nat) :
  nth_error (slice a lo hi) j =
  if (j <? hi - lo)%nat then nth_error a (lo + j) else None.
Proof.
  unfold slice. rewrite nth_error_firstn.
  destruct (j <? hi - lo)%nat; [apply nth_error_skipn | reflexivity].
Qed.

Lemma array_max_total (a : list Q) (lo hi : nat) :
  (lo < hi)%nat -> (lo < length a)%nat ->
  exists m, array_max (slice a lo hi) = Ok m.
Proof.
  intros Hlt Hlen.
  destruct (slice a lo hi) as [|x xs] eqn:E; simpl; [|eauto].
  exfalso.
  assert (H : nth_error (slice a lo hi) 0 = None) by (rewrite E; reflexivity).
  rewrite nth_error_slice in H.
  replace (0 <? hi - lo)%nat with true in H
    by (symmetry; apply Nat.ltb_lt; lia).
  apply nth_error_None in H. lia.
Qed.

(** ** One iteration *)

Section Iteration.

Variable degrees : Q -> Q.
Variable df : DataFrame.
Variable c : Thresholds.

Lemma step_dt_pos (i : nat) (cur prev : Row) :
  (0 < i)%nat ->
  nth_error df i = Some cur -> nth_error df (i - 1) = Some prev ->
  step_dt (timestamps_of df) c i = Ok (Time_s cur - Time_s prev).
Proof.
  intros Hi Hc Hp. unfold step_dt, timestamps_of.
  replace (0 <? i)%nat with true by (symmetry; apply Nat.ltb_lt; exact Hi).
  rewrite (get_map Time_s df i cur Hc).
  rewrite (get_map Time_s df (i - 1) prev Hp). reflexivity.
Qed.

Lemma process_ground (i : nat) (st : Loop) (cur : Row) :
  state st = ground -> nth_error df i = Some cur ->
  process degrees df c i st = Ok (next_ground c i st cur).
Proof.
  intros Hs Hc. unfold process, loop_body. rewrite Hs.
  unfold on_ground, accel_mag_of, next_ground.
  rewrite (get_map UserAccel_Mag df i cur Hc). simpl.
  destruct (Qgtb (UserAccel_Mag cur) (takeoff_threshold c)); reflexivity.
Qed.

Lemma process_potential_takeoff (i : nat) (st : Loop) (cur prev r0 : Row) :
  state st = potential_takeoff -> (0 < i)%nat ->
  nth_error df i = Some cur -> nth_error df (i - 1) = Some prev ->
  nth_error df (jump_start_idx st) = Some r0 ->
  process degrees df c i st = Ok (next_potential_takeoff c st cur prev r0).
Proof.
  intros Hs Hi Hc Hp H0. unfold process, loop_body. rewrite Hs.
  unfold on_potential_takeoff.
  rewrite (step_dt_pos i cur prev Hi Hc Hp).
  unfold accel_mag_of, rotation_z_of, timestamps_of.
  rewrite (get_map RotationRate_Z df i cur Hc).
  rewrite (get_map UserAccel_Mag df i cur Hc).
  rewrite (get_map Time_s df i cur Hc).
  rewrite (get_map Time_s df (jump_start_idx st) r0 H0).
  unfold next_potential_takeoff, elapsed_between. simpl.
  destruct (Qgtb (Time_s cur - Time_s r0) (1 # 2)); simpl; reflexivity.
Qed.

Lemma process_airborne (i : nat) (st : Loop) (cur prev r0 : Row) (peak : Q) :
  state st = airborne -> (0 < i)%nat ->
  nth_error df i = Some cur -> nth_error df (i - 1) = Some prev ->
  nth_error df (jump_start_idx st) = Some r0 ->
  array_max (slice (accel_mag_of df) (jump_start_idx st) (i + 1)) = Ok peak ->
  process degrees df c i st = Ok (next_airborne degrees c i st cur prev r0 peak).
Proof.
  intros Hs Hi Hc Hp H0 Hpk. unfold process, loop_body. rewrite Hs.
  unfold on_airborne, make_jump.
  rewrite (step_dt_pos i cur prev Hi Hc Hp). rewrite Hpk.
  unfold accel_mag_of, rotation_z_of, timestamps_of.
  rewrite (get_map RotationRate_Z df i cur Hc).
  rewrite (get_map UserAccel_Mag df i cur Hc).
  rewrite (get_map Time_s df i cur Hc).
  rewrite (get_map Time_s df (jump_start_idx st) r0 H0).
  unfold next_airborne, impact_gate, confirmed_jump, elapsed_between. simpl.
  destruct (Qgtb (UserAccel_Mag cur) (landing_threshold c));
    destruct (Qgtb (Time_s cur - Time_s r0) (min_airtime_s c * (1 # 2)));
    destruct (Qgeb (Time_s cur - Time_s r0) (min_airtime_s c));
    simpl; reflexivity.
Qed.

(** In every state the loop can be in at index [i], the rows an iteration
    reads exist, and the iteration returns the matching [next_] value. *)
Lemma process_cases (i : nat) (st : Loop) :
  (i < length df)%nat -> wf i st ->
  exists cur, nth_error df i = Some cur /\
    match state st with
    | ground => process degrees df c i st = Ok (next_ground c i st cur)
    | potential_takeoff =>
        exists prev r0,
          (jump_start_idx st < i)%nat
          /\ nth_error df (i - 1) = Some prev
          /\ nth_error df (jump_start_idx st) = Some r0
          /\ process degrees df c i st
             = Ok (next_potential_takeoff c st cur prev r0)
    | airborne =>
        exists prev r0 peak,
          (jump_start_idx st < i)%nat
          /\ nth_error df (i - 1) = Some prev
          /\ nth_error df (jump_start_idx st) = Some r0
          /\ array_max (slice (accel_mag_of df) (jump_start_idx st) (i + 1))
             = Ok peak
          /\ process degrees df c i st
             = Ok (next_airborne degrees c i st cur prev r0 peak)
    end.
Proof.
  intros Hi Hwf. destruct (row_at df i Hi) as [cur Hc].
  exists cur. split; [exact Hc|].
  destruct (state st) eqn:Hs.
  - apply process_ground; assumption.
  - assert (Hj : (jump_start_idx st < i)%nat) by (apply Hwf; congruence).
    destruct (row_at df (i - 1)) as [prev Hp]; [lia|].
    destruct (row_at df (jump_start_idx st)) as [r0 H0]; [lia|].
    exists prev, r0. repeat split; try assumption.
    apply process_potential_takeoff; try assumption. lia.
  - assert (Hj : (jump_start_idx st < i)%nat) by (apply Hwf; congruence).
    destruct (row_at df (i - 1)) as [prev Hp]; [lia|].
    destruct (row_at df (jump_start_idx st)) as [r0 H0]; [lia|].
    destruct (array_max_total (accel_mag_of df) (jump_start_idx st) (i + 1))
      as [peak Hpk]; [lia | unfold accel_mag_of; rewrite length_map; lia |].
    exists prev, r0, peak. repeat split; try assumption.
    apply process_airborne; try assumption. lia.
Qed.

(** An iteration inside the DataFrame never raises, and keeps [wf]. *)
Lemma process_total (i : nat) (st : Loop) :
  (i < length df)%nat -> wf i st ->
  exists st', process degrees df c i st = Ok st' /\ wf (S i) st'.
Proof.
  intros Hi Hwf. destruct (process_cases i st Hi Hwf) as (cur & Hc & H).
  destruct (state st) eqn:Hs.
  - eexists. split; [exact H|]. unfold next_ground, wf.
    destruct (Qgtb _ _); simpl; intros Hn; [lia | congruence].
  - destruct H as (prev & r0 & Hj & _ & _ & H).
    eexists. split; [exact H|]. unfold wf. simpl. intros _. lia.
  - destruct H as (prev & r0 & peak & Hj & _ & _ & _ & H).
    eexists. split; [exact H|]. unfold wf. simpl. intros _. lia.
Qed.

(** ** The whole loop *)

Lemma run_from_cons (i : nat) (idx : list nat) (st : Loop) :
  run_from degrees df c (i :: idx) st
  = (st' <- process degrees df c i st ;; run_from degrees df c idx st').
Proof. reflexivity. Qed.

Lemma run_from_app (l1 l2 : list nat) (st : Loop) :
  run_from degrees df c (l1 ++ l2) st
  = (st' <- run_from degrees df c l1 st ;; run_from degrees df c l2 st').
Proof.
  revert st. induction l1 as [|i l1 IH]; intros st; [reflexivity|].
  simpl app. rewrite !run_from_cons.
  destruct (process degrees df c i st); simpl; [apply IH | reflexivity].
Qed.

(** The invariant rule of the loop: a property that holds before the
    iterations [k .. k+n-1] and is kept by every iteration that returns,
    holds after them; and they all return. *)
Lemma run_from_invariant (P : nat -> Loop -> Prop) :
  (forall i st st', (i < length df)%nat -> wf i st -> P i st ->
     process degrees df c i st = Ok st' -> P (S i) st') ->
  forall n k st, (k + n <= length df)%nat -> wf k st -> P k st ->
    exists st', run_from degrees df c (seq k n) st = Ok st'
                /\ wf (k + n) st' /\ P (k + n)%nat st'.
Proof.
  intros Hstep. induction n as [|n IH]; intros k st Hk Hwf HP.
  - exists st. rewrite Nat.add_0_r. simpl. auto.
  - destruct (process_total k st) as (st1 & H1 & Hwf1); [lia | exact Hwf |].
    destruct (IH (S k) st1) as (st' & Hrun & Hwf' & HP');
      [lia | exact Hwf1 | eapply Hstep; eauto; lia |].
    exists st'. replace (k + S n)%nat with (S k + n)%nat by lia.
    split; [|auto]. simpl seq. rewrite run_from_cons, H1. exact Hrun.
Qed.

Lemma wf_init : wf 0 init.
Proof. unfold wf. simpl. congruence. Qed.

Lemma run_to_invariant (P : nat -> Loop -> Prop) :
  P 0%nat init ->
  (forall i st st', (i < length df)%nat -> wf i st -> P i st ->
     process degrees df c i st = Ok st' -> P (S i) st') ->
  forall k, (k <= length df)%nat ->
    exists st, run_to degrees df c k = Ok st /\ wf k st /\ P k st.
Proof.
  intros H0 Hstep k Hk.
  destruct (run_from_invariant P Hstep k 0%nat init) as (st & H & Hwf & HP);
    [lia | apply wf_init | exact H0 |].
  exists st. auto.
Qed.

(** The loop variables after [k <= len(df)] iterations exist. *)
Lemma run_to_total (k : nat) :
  (k <= length df)%nat ->
  exists st, run_to degrees df c k = Ok st /\ wf k st.
Proof.
  intros Hk.
  destruct (run_to_invariant (fun _ _ => True) I (fun _ _ _ _ _ _ _ => I) k Hk)
    as (st & H & Hwf & _).
  eauto.
Qed.

(** A state the loop reaches is well formed. *)
Lemma run_to_wf (k : nat) (st : Loop) :
  (k <= length df)%nat -> run_to degrees df c k = Ok st -> wf k st.
Proof.
  intros Hk H. destruct (run_to_total k Hk) as (st' & H' & Hwf).
  rewrite H in H'. injection H' as <-. exact Hwf.
Qed.

(** The loop to the end is the loop to [k] followed by the rest. *)
Lemma run_to_split (k : nat) :
  (k <= length df)%nat ->
  run_to degrees df c (length df)
  = (st <- run_to degrees df c k ;;
     run_from degrees df c (seq k (length df - k)) st).
Proof.
  intros Hk. unfold run_to.
  replace (length df) with (k + (length df - k))%nat at 1 by lia.
  rewrite seq_app, run_from_app. reflexivity.
Qed.

Lemma detect_unfold :
  detect_jumps_offline degrees df c
  = (st <- run_to degrees df c (length df) ;; Ok (jumps st)).
Proof.
  unfold detect_jumps_offline, accel_mag_of. rewrite length_map. reflexivity.
Qed.

End Iteration.

(** ** The list of jumps *)

Lemma StronglySorted_snoc {A : Type} (R : A -> A -> Prop) (l : list A) (x : A) :
  StronglySorted R l -> Forall (fun y => R y x) l ->
  StronglySorted R (l ++ [x]).
Proof.
  induction 1 as [|a l Hl IH Ha]; intros Hx; simpl.
  - repeat constructor.
  - apply Forall_cons_iff in Hx. destruct Hx as [Hax Hlx].
    constructor; [apply IH; exact Hlx|].
    apply Forall_app. split; [exact Ha | constructor; [exact Hax | constructor]].
Qed.

Section Jumps.

Variable degrees : Q -> Q.
Variable df : DataFrame.
Variable c : Thresholds.

Lemma jumps_inv_init : jumps_inv df c 0 init.
Proof. repeat split; simpl; constructor. Qed.

Lemma jumps_inv_weaken (i : nat) (js : list Jump) :
  Forall (fun e => jump_ok df c e /\ (end_idx e < i)%nat) js ->
  Forall (fun e => jump_ok df c e /\ (end_idx e < S i)%nat) js.
Proof.
  apply Forall_impl. intros e [H1 H2]. split; [exact H1 | lia].
Qed.

Lemma confirmed_jump_ok (i : nat) (st : Loop) (cur prev r0 : Row) (peak : Q) :
  (i < length df)%nat -> (jump_start_idx st < i)%nat ->
  nth_error df i = Some cur ->
  nth_error df (jump_start_idx st) = Some r0 ->
  array_max (slice (accel_mag_of df) (jump_start_idx st) (i + 1)) = Ok peak ->
  Qgeb (elapsed_between r0 cur) (min_airtime_s c) = true ->
  jump_ok df c (confirmed_jump degrees i st cur prev r0 peak).
Proof.
  intros Hi Hj Hc H0 Hpk Hmin. constructor; simpl.
  - exact Hj.
  - exact Hi.
  - apply nth_error_col. eauto.
  - apply nth_error_col. eauto.
  - reflexivity.
  - apply Qgeb_true. exact Hmin.
  - apply nth_error_col. eauto.
  - exact Hpk.
Qed.

Lemma process_jumps_inv (i : nat) (st st' : Loop) :
  (i < length df)%nat -> wf i st -> jumps_inv df c i st ->
  process degrees df c i st = Ok st' -> jumps_inv df c (S i) st'.
Proof.
  intros Hi Hwf (Hall & Hlast & Hsort) Hp.
  destruct (process_cases degrees df c i st Hi Hwf) as (cur & Hc & H).
  destruct (state st) eqn:Hs.
  - rewrite H in Hp. injection Hp as <-. unfold next_ground.
    destruct (Qgtb _ _); repeat split; simpl.
    + apply jumps_inv_weaken, Hall.
    + intros _. revert Hall. apply Forall_impl. intros e [_ He]. exact He.
    + exact Hsort.
    + apply jumps_inv_weaken, Hall.
    + intros Hn. congruence.
    + exact Hsort.
  - destruct H as (prev & r0 & Hj & _ & _ & H).
    rewrite H in Hp. injection Hp as <-. repeat split; simpl.
    + apply jumps_inv_weaken, Hall.
    + intros _. apply Hlast. congruence.
    + exact Hsort.
  - destruct H as (prev & r0 & peak & Hj & _ & H0 & Hpk & H).
    rewrite H in Hp. injection Hp as <-.
    assert (Hopen : Forall (fun e => (end_idx e < jump_start_idx st)%nat)
                           (jumps st)) by (apply Hlast; congruence).
    unfold jumps_inv, next_airborne. simpl.
    destruct (impact_gate c cur r0) eqn:Hg; simpl.
    + replace (if Qgtb (elapsed_between r0 cur) 5 then ground else ground)
        with ground by (destruct (Qgtb _ _); reflexivity).
      destruct (Qgeb (elapsed_between r0 cur) (min_airtime_s c)) eqn:Hmin.
      * repeat split.
        -- apply Forall_app. split; [apply jumps_inv_weaken, Hall|].
           constructor; [|constructor]. split; [|simpl; lia].
           apply confirmed_jump_ok; assumption.
        -- congruence.
        -- apply StronglySorted_snoc; [exact Hsort|].
           revert Hopen. apply Forall_impl. intros e He. exact He.
      * repeat split; [apply jumps_inv_weaken, Hall | congruence | exact Hsort].
    + repeat split; [apply jumps_inv_weaken, Hall | | exact Hsort].
      intros _. exact Hopen.
Qed.

(** The loop returns, and its jumps satisfy the invariant. *)
Lemma run_to_jumps_inv (k : nat) :
  (k <= length df)%nat ->
  exists st, run_to degrees df c k = Ok st /\ wf k st /\ jumps_inv df c k st.
Proof.
  apply (run_to_invariant degrees df c (jumps_inv df c)).
  - apply jumps_inv_init.
  - apply process_jumps_inv.
Qed.

(** [detect_jumps_offline] returns a list of well-formed jumps, each of
    which ends before the next starts. *)
Lemma detect_returns :
  exists js, detect_jumps_offline degrees df c = Ok js
             /\ Forall (jump_ok df c) js /\ StronglySorted before js.
Proof.
  destruct (run_to_jumps_inv (length df) (Nat.le_refl _))
    as (st & H & _ & Hall & _ & Hsort).
  exists (jumps st). rewrite detect_unfold, H. simpl.
  repeat split; [|exact Hsort].
  revert Hall. apply Forall_impl. intros e [He _]. exact He.
Qed.

End Jumps.

(** A DataFrame sorted by time has non-decreasing timestamps. *)
Lemma sorted_times_monotone (df : DataFrame) :
  StronglySorted (fun r1 r2 => Time_s r1 <= Time_s r2) df -> monotone df.
Proof.
  induction 1 as [|a l Hl IH Ha]; intros i j ri rj Hij Hi Hj.
  - destruct i; discriminate.
  - destruct i as [|i], j as [|j]; simpl in Hi, Hj.
    + injection Hi as <-. injection Hj as <-. apply Qle_refl.
    + injection Hi as <-. rewrite Forall_forall in Ha.
      apply Ha. eapply nth_error_In. exact Hj.
    + lia.
    + apply (IH i j); [lia | exact Hi | exact Hj].
Qed.

(** ** Runs on the sample data *)

Example detect_df_jump :
  detect_jumps_offline degrees_q df_jump default_thresholds
  = Ok [ {| start_idx := 1; end_idx := 3; start_time := 1 # 4;
            end_time := 3 # 4; duration_s := 8 # 16;
            yaw_degrees := degrees_q (32 # 64); peak_accel := 3;
            landing_impact := 3 |} ].
Proof. reflexivity. Qed.

Example detect_df_two_jumps :
  match detect_jumps_offline degrees_q df_two_jumps default_thresholds with
  | Ok js => map (fun e => (start_idx e, end_idx e)) js
  | Raise _ => []
  end = [(1%nat, 3%nat); (5%nat, 7%nat)].
Proof. reflexivity. Qed.

(** Without freefall the candidate is abandoned and nothing is reported. *)
Example detect_without_freefall :
  detect_jumps_offline degrees_q
    [ row 1 0 0; row 2 0 (1 # 4); row (8 # 5) 0 (1 # 2); row 2 0 (3 # 4);
      row (8 # 5) 0 1; row 3 0 (5 # 4) ]
    default_thresholds = Ok [].
Proof. reflexivity. Qed.

(** An empty DataFrame gives no jump, whatever the thresholds. *)
Example detect_empty (c : Thresholds) :
  detect_jumps_offline degrees_q [] c = Ok [].
Proof. reflexivity. Qed.

(** * The specified properties *)

Section Specified.

Variable degrees : Q -> Q.
Variable df : DataFrame.
Variable c : Thresholds.

(** Every iteration of a run returns. *)
Lemma every_iteration_returns (k : nat) :
  (k < length df)%nat ->
  exists st st', run_to degrees df c k = Ok st
                 /\ process degrees df c k st = Ok st'.
Proof.
  intros Hk. destruct (run_to_total degrees df c k) as (st & H & Hwf); [lia|].
  destruct (process_total degrees df c k st Hk Hwf) as (st' & H' & _).
  eauto.
Qed.

(** C1 (as amended).  [detect_jumps_offline] does not validate its
    thresholds: for every configuration, positive or not, and every
    DataFrame it returns a list of jumps, and every iteration of its loop
    returns new loop variables; nothing is raised, neither before the
    first sample nor while samples are processed. *)
Theorem detect_never_raises :
  (exists js, detect_jumps_offline degrees df c = Ok js)
  /\ (forall k, (k < length df)%nat ->
        exists st st', run_to degrees df c k = Ok st
                       /\ process degrees df c k st = Ok st').
Proof.
  split.
  - destruct (detect_returns degrees df c) as (js & H & _). eauto.
  - apply every_iteration_returns.
Qed.

(** C6.  When no sample has a magnitude above [takeoff_threshold] (in
    particular when there is no sample at all), the detector returns the
    empty list of jumps, for any thresholds, and raises nothing. *)
Theorem no_takeoff_no_jump :
  Forall (fun r => ~ takeoff_threshold c < UserAccel_Mag r) df ->
  detect_jumps_offline degrees df c = Ok [].
Proof.
  intros Hq.
  destruct (run_to_invariant degrees df c (fun _ st => st = init) eq_refl)
    with (k := length df) as (st & H & _ & ->); [|lia|].
  - intros i st st' Hi _ -> Hp.
    destruct (row_at df i Hi) as [cur Hc].
    rewrite (process_ground degrees df c i init cur eq_refl Hc) in Hp.
    injection Hp as <-. unfold next_ground.
    destruct (Qgtb _ _) eqn:E; [|reflexivity].
    apply Qgtb_true in E. rewrite Forall_forall in Hq.
    exfalso. apply (Hq cur); [eapply nth_error_In; exact Hc | exact E].
  - rewrite detect_unfold, H. reflexivity.
Qed.

(** What an iteration in the airborne phase does to a reached state. *)
Lemma airborne_step (k : nat) (st : Loop) (cur r0 : Row) :
  (k < length df)%nat -> run_to degrees df c k = Ok st ->
  state st = airborne ->
  nth_error df k = Some cur -> nth_error df (jump_start_idx st) = Some r0 ->
  exists prev peak,
    process degrees df c k st
    = Ok (next_airborne degrees c k st cur prev r0 peak).
Proof.
  intros Hk Hrun Hs Hc H0.
  assert (Hwf : wf k st) by (apply (run_to_wf degrees df c k st); [lia | exact Hrun]).
  destruct (process_cases degrees df c k st Hk Hwf) as (cur' & Hc' & H).
  rewrite Hs in H. destruct H as (prev & r0' & peak & _ & _ & H0' & _ & H).
  assert (cur' = cur) by congruence. assert (r0' = r0) by congruence.
  subst. eauto.
Qed.

(** What an iteration in the potential-takeoff phase does to a reached
    state. *)
Lemma potential_takeoff_step (k : nat) (st : Loop) (cur r0 : Row) :
  (k < length df)%nat -> run_to degrees df c k = Ok st ->
  state st = potential_takeoff ->
  nth_error df k = Some cur -> nth_error df (jump_start_idx st) = Some r0 ->
  exists prev,
    process degrees df c k st = Ok (next_potential_takeoff c st cur prev r0).
Proof.
  intros Hk Hrun Hs Hc H0.
  assert (Hwf : wf k st) by (apply (run_to_wf degrees df c k st); [lia | exact Hrun]).
  destruct (process_cases degrees df c k st Hk Hwf) as (cur' & Hc' & H).
  rewrite Hs in H. destruct H as (prev & r0' & _ & _ & H0' & H).
  assert (cur' = cur) by congruence. assert (r0' = r0) by congruence.
  subst. eauto.
Qed.

Lemma half_lt (x : Q) : 0 < x -> x * (1 # 2) < x.
Proof.
  intros H. rewrite <- (Qmult_1_r x) at 2.
  apply Qmult_lt_l; [exact H | reflexivity].
Qed.

(** C3.  Every jump returned has [duration_s >= min_airtime_s].  At a
    landing sample (magnitude above [landing_threshold] in the airborne
    phase): with [elapsed < min_airtime_s] nothing is appended, and the
    candidate is dropped (back to ground) once the impact gate is passed;
    with [elapsed >= min_airtime_s], so in particular with [elapsed]
    exactly equal to a positive [min_airtime_s], one jump of that duration
    is appended. *)
Theorem duration_at_least_min_airtime :
  (exists js, detect_jumps_offline degrees df c = Ok js
              /\ Forall (fun e => min_airtime_s c <= duration_s e) js)
  /\ (forall k st cur r0,
        (k < length df)%nat -> run_to degrees df c k = Ok st ->
        state st = airborne ->
        nth_error df k = Some cur ->
        nth_error df (jump_start_idx st) = Some r0 ->
        landing_threshold c < UserAccel_Mag cur ->
        (elapsed_between r0 cur < min_airtime_s c ->
         exists st', process degrees df c k st = Ok st'
                     /\ jumps st' = jumps st
                     /\ (min_airtime_s c * (1 # 2) < elapsed_between r0 cur ->
                         state st' = ground))
        /\ (0 < min_airtime_s c ->
            min_airtime_s c <= elapsed_between r0 cur ->
            exists st' e, process degrees df c k st = Ok st'
                          /\ state st' = ground
                          /\ jumps st' = jumps st ++ [e]
                          /\ start_idx e = jump_start_idx st
                          /\ end_idx e = k
                          /\ duration_s e = elapsed_between r0 cur)).
Proof.
  split.
  - destruct (detect_returns degrees df c) as (js & H & Hall & _).
    exists js. split; [exact H|]. revert Hall. apply Forall_impl.
    intros e He. apply (jo_min_airtime df c e He).
  - intros k st cur r0 Hk Hrun Hs Hc H0 Hland.
    destruct (airborne_step k st cur r0 Hk Hrun Hs Hc H0) as (prev & peak & H).
    apply (proj2 (Qgtb_true _ _)) in Hland. split.
    + intros Hshort. apply (proj2 (Qgeb_false _ _)) in Hshort.
      eexists. split; [exact H|]. unfold next_airborne. simpl.
      rewrite Hshort, andb_false_r. split; [reflexivity|].
      intros Hgate. apply (proj2 (Qgtb_true _ _)) in Hgate.
      unfold impact_gate. rewrite Hland, Hgate. simpl.
      destruct (Qgtb (elapsed_between r0 cur) 5); reflexivity.
    + intros Hpos Hlong.
      assert (Hgate : Qgtb (elapsed_between r0 cur) (min_airtime_s c * (1 # 2))
                      = true).
      { apply Qgtb_true. eapply Qlt_le_trans; [apply half_lt, Hpos | exact Hlong]. }
      apply (proj2 (Qgeb_true _ _)) in Hlong.
      exists (next_airborne degrees c k st cur prev r0 peak),
             (confirmed_jump degrees k st cur prev r0 peak).
      split; [exact H|]. unfold next_airborne, impact_gate. simpl.
      rewrite Hland, Hgate, Hlong. simpl.
      repeat split. destruct (Qgtb (elapsed_between r0 cur) 5); reflexivity.
Qed.

(** C4.  In the airborne phase, a sample above [landing_threshold] whose
    elapsed time equals [min_airtime_s / 2] does not pass the impact gate:
    nothing is appended to the jumps, and the phase stays airborne (it can
    only change through the separate 5-second check). *)
Theorem impact_gate_is_strict (k : nat) (st : Loop) (cur r0 : Row) :
  (k < length df)%nat -> run_to degrees df c k = Ok st ->
  state st = airborne ->
  nth_error df k = Some cur -> nth_error df (jump_start_idx st) = Some r0 ->
  landing_threshold c < UserAccel_Mag cur ->
  elapsed_between r0 cur == min_airtime_s c / 2 ->
  impact_gate c cur r0 = false
  /\ exists st', process degrees df c k st = Ok st'
                 /\ jumps st' = jumps st
                 /\ state st' = (if Qgtb (elapsed_between r0 cur) 5
                                 then ground else airborne)
                 /\ (elapsed_between r0 cur <= 5 -> state st' = airborne).
Proof.
  intros Hk Hrun Hs Hc H0 Hland Hhalf.
  destruct (airborne_step k st cur r0 Hk Hrun Hs Hc H0) as (prev & peak & H).
  assert (Hgate : impact_gate c cur r0 = false).
  { unfold impact_gate. apply andb_false_iff. right. apply Qgtb_false.
    rewrite Hhalf. apply Qle_refl. }
  split; [exact Hgate|].
  eexists. split; [exact H|]. unfold next_airborne. simpl.
  rewrite Hgate. simpl. repeat split.
  intros Hle. apply (proj2 (Qgtb_false _ _)) in Hle. rewrite Hle. reflexivity.
Qed.

Lemma StronglySorted_weaken {A : Type} (P : A -> Prop) (R R' : A -> A -> Prop)
    (l : list A) :
  (forall x y, P x -> P y -> R x y -> R' x y) ->
  Forall P l -> StronglySorted R l -> StronglySorted R' l.
Proof.
  intros Himp HP Hs. induction Hs as [|a l Hl IH Ha]; [constructor|].
  apply Forall_cons_iff in HP. destruct HP as [Pa Pl].
  constructor; [apply IH; exact Pl|].
  rewrite Forall_forall in *. intros y Hy. apply Himp; auto.
Qed.

Lemma StronglySorted_lt_NoDup {A : Type} (f : A -> nat) (l : list A) :
  StronglySorted (fun x y => (f x < f y)%nat) l -> NoDup (map f l).
Proof.
  induction 1 as [|a l Hl IH Ha]; simpl; constructor; [|exact IH].
  intros Hin. apply in_map_iff in Hin. destruct Hin as (y & Hy & Hin).
  rewrite Forall_forall in Ha. specialize (Ha y Hin). lia.
Qed.

(** An iteration appends at most one jump, and only for the candidate that
    was open. *)
Lemma process_appends_at_most_one (i : nat) (st st' : Loop) :
  (i < length df)%nat -> wf i st -> process degrees df c i st = Ok st' ->
  jumps st' = jumps st
  \/ exists e, jumps st' = jumps st ++ [e]
               /\ start_idx e = jump_start_idx st /\ end_idx e = i.
Proof.
  intros Hi Hwf Hp.
  destruct (process_cases degrees df c i st Hi Hwf) as (cur & Hc & H).
  destruct (state st).
  - rewrite H in Hp. injection Hp as <-. left. unfold next_ground.
    destruct (Qgtb (UserAccel_Mag cur) (takeoff_threshold c)); reflexivity.
  - destruct H as (prev & r0 & _ & _ & _ & H).
    rewrite H in Hp. injection Hp as <-. left. reflexivity.
  - destruct H as (prev & r0 & peak & _ & _ & _ & _ & H).
    rewrite H in Hp. injection Hp as <-. unfold next_airborne. simpl.
    destruct (impact_gate c cur r0
              && Qgeb (elapsed_between r0 cur) (min_airtime_s c));
      [right | left; reflexivity].
    eexists. repeat split.
Qed.

(** C7.  The jumps returned are in increasing order of [start_idx] (each
    ends before the next starts), so in non-decreasing order of
    [start_idx], with no start index and no jump occurring twice; when the
    timestamps do not decrease they are also in non-decreasing order of
    [start_time].  Every iteration appends at most one jump, the one of the
    candidate it confirms. *)
Theorem jumps_ordered_without_duplicates :
  exists js, detect_jumps_offline degrees df c = Ok js
    /\ StronglySorted (fun e1 e2 => (start_idx e1 <= start_idx e2)%nat) js
    /\ StronglySorted (fun e1 e2 => (start_idx e1 < start_idx e2)%nat) js
    /\ StronglySorted before js
    /\ NoDup (map start_idx js)
    /\ NoDup js
    /\ (monotone df ->
        StronglySorted (fun e1 e2 => start_time e1 <= start_time e2) js)
    /\ (forall k, (k < length df)%nat ->
          exists st st',
            run_to degrees df c k = Ok st
            /\ process degrees df c k st = Ok st'
            /\ (jumps st' = jumps st
                \/ exists e, jumps st' = jumps st ++ [e]
                             /\ start_idx e = jump_start_idx st
                             /\ end_idx e = k)).
Proof.
  destruct (detect_returns degrees df c) as (js & H & Hall & Hsort).
  assert (Hlt : StronglySorted
                  (fun e1 e2 => (start_idx e1 < start_idx e2)%nat) js).
  { apply (StronglySorted_weaken (jump_ok df c) before); [|exact Hall|exact Hsort].
    intros x y Hx _ Hxy. pose proof (jo_order df c x Hx). unfold before in Hxy.
    lia. }
  pose proof (StronglySorted_lt_NoDup start_idx js Hlt) as Hnd.
  exists js. repeat split; try assumption.
  - revert Hlt. apply (StronglySorted_weaken (fun _ => True)).
    + intros x y _ _ Hxy. lia.
    + apply Forall_forall. auto.
  - apply NoDup_map_inv with (f := start_idx). exact Hnd.
  - intros Hmono.
    apply (StronglySorted_weaken (jump_ok df c)
             (fun e1 e2 => (start_idx e1 < start_idx e2)%nat));
      [|exact Hall|exact Hlt].
    intros x y Hx Hy Hxy.
    destruct (proj1 (nth_error_col _ _ _ _) (jo_start_time df c x Hx))
      as (rx & Hrx & <-).
    destruct (proj1 (nth_error_col _ _ _ _) (jo_start_time df c y Hy))
      as (ry & Hry & <-).
    apply (Hmono (start_idx x) (start_idx y)); [lia | exact Hrx | exact Hry].
  - intros k Hk.
    destruct (run_to_total degrees df c k) as (st & Hrun & Hwf); [lia|].
    destruct (process_total degrees df c k st Hk Hwf) as (st' & Hp & _).
    exists st, st'. repeat split; try assumption.
    apply (process_appends_at_most_one k st st' Hk Hwf Hp).
Qed.

(** C2 (as amended).  In the potential-takeoff phase a sample below
    [freefall_ceiling] sets the phase to airborne, and the abandon check,
    which is a second [if] and not an else-branch, then runs on the same
    sample: the iteration ends airborne unless that sample also has
    [elapsed > 0.5] and a magnitude above [takeoff_threshold], in which
    case it ends on the ground.  When [freefall_ceiling <=
    takeoff_threshold] the two conditions exclude each other and the
    iteration always ends airborne. *)
Theorem freefall_then_abandon_check (k : nat) (st : Loop) (cur r0 : Row) :
  (k < length df)%nat -> run_to degrees df c k = Ok st ->
  state st = potential_takeoff ->
  nth_error df k = Some cur -> nth_error df (jump_start_idx st) = Some r0 ->
  UserAccel_Mag cur < freefall_ceiling c ->
  exists st', process degrees df c k st = Ok st'
    /\ jumps st' = jumps st
    /\ ((1 # 2) < elapsed_between r0 cur
        /\ takeoff_threshold c < UserAccel_Mag cur -> state st' = ground)
    /\ (~ ((1 # 2) < elapsed_between r0 cur
           /\ takeoff_threshold c < UserAccel_Mag cur) -> state st' = airborne)
    /\ (freefall_ceiling c <= takeoff_threshold c -> state st' = airborne).
Proof.
  intros Hk Hrun Hs Hc H0 Hff.
  destruct (potential_takeoff_step k st cur r0 Hk Hrun Hs Hc H0) as (prev & H).
  apply (proj2 (Qltb_true _ _)) in Hff.
  eexists. split; [exact H|]. unfold next_potential_takeoff. simpl.
  rewrite Hff. split; [reflexivity|].
  assert (Hno : ~ ((1 # 2) < elapsed_between r0 cur
                   /\ takeoff_threshold c < UserAccel_Mag cur) ->
                (if Qgtb (elapsed_between r0 cur) (1 # 2)
                    && Qgtb (UserAccel_Mag cur) (takeoff_threshold c)
                 then ground else airborne) = airborne).
  { intros Hn.
    destruct (Qgtb (elapsed_between r0 cur) (1 # 2)) eqn:E1;
      destruct (Qgtb (UserAccel_Mag cur) (takeoff_threshold c)) eqn:E2;
      try reflexivity.
    exfalso. apply Hn. split; apply Qgtb_true; assumption. }
  split; [|split].
  - intros [H1 H2].
    apply (proj2 (Qgtb_true _ _)) in H1. apply (proj2 (Qgtb_true _ _)) in H2.
    rewrite H1, H2. reflexivity.
  - exact Hno.
  - intros Hle. apply Hno. intros [_ H2].
    apply Qltb_true in Hff.
    apply (Qlt_irrefl (UserAccel_Mag cur)).
    eapply Qlt_trans; [exact Hff|].
    eapply Qle_lt_trans; [exact Hle | exact H2].
Qed.

Lemma same_behaviour_refl (s : Loop) : same_behaviour s s.
Proof. repeat split. Qed.

(** Stale candidate data in the ground phase is never read: two states
    that agree up to it produce the same jumps and the same phases. *)
Lemma run_from_same_behaviour (idx : list nat) (s1 s2 : Loop) :
  same_behaviour s1 s2 ->
  result_agree (run_from degrees df c idx s1) (run_from degrees df c idx s2).
Proof.
  revert s1 s2. induction idx as [|i idx IH]; intros s1 s2 Hsb.
  - exact Hsb.
  - destruct Hsb as (Hst & Hjs & Heq).
    destruct (state s1) eqn:Hs1.
    + symmetry in Hst. rewrite !run_from_cons.
      unfold process, loop_body. rewrite Hs1, Hst. unfold on_ground.
      destruct (get (accel_mag_of df) i) as [a|e]; simpl; [|reflexivity].
      rewrite Hjs.
      destruct (Qgtb a (takeoff_threshold c)); simpl.
      * apply IH, same_behaviour_refl.
      * apply IH. repeat split; [congruence | exact Hjs | congruence].
    + rewrite <- (Heq ltac:(discriminate)).
      destruct (run_from degrees df c (i :: idx) s1) as [s|e]; simpl;
        [apply same_behaviour_refl | reflexivity].
    + rewrite <- (Heq ltac:(discriminate)).
      destruct (run_from degrees df c (i :: idx) s1) as [s|e]; simpl;
        [apply same_behaviour_refl | reflexivity].
Qed.

(** C9 (as amended).  A return to the ground phase changes the phase only:
    an iteration that starts outside the ground phase keeps
    [jump_start_idx] and adds the increment of this sample to
    [accumulated_yaw], whatever phase it ends in.  The two variables are
    overwritten ([jump_start_idx = i], [accumulated_yaw = 0]) by the next
    transition from ground to potential takeoff.  Nothing reads them while
    on the ground: from a ground state, the loop run with the stale values
    and the loop run with them reset give the same jumps. *)
Theorem candidate_data_kept_until_next_takeoff :
  (forall k st st',
      (k < length df)%nat -> run_to degrees df c k = Ok st ->
      state st <> ground -> process degrees df c k st = Ok st' ->
      jump_start_idx st' = jump_start_idx st
      /\ exists cur prev,
           nth_error df k = Some cur /\ nth_error df (k - 1) = Some prev
           /\ accumulated_yaw st'
              = accumulated_yaw st
                + RotationRate_Z cur * (Time_s cur - Time_s prev))
  /\ (forall k st st',
        (k < length df)%nat -> run_to degrees df c k = Ok st ->
        state st = ground -> process degrees df c k st = Ok st' ->
        st' = st
        \/ (state st' = potential_takeoff /\ jump_start_idx st' = k
            /\ accumulated_yaw st' = 0 /\ jumps st' = jumps st))
  /\ (forall idx st,
        state st = ground ->
        result_agree (run_from degrees df c idx st)
                     (run_from degrees df c idx (reset_candidate st))).
Proof.
  split; [|split].
  - intros k st st' Hk Hrun Hs Hp.
    assert (Hwf : wf k st)
      by (apply (run_to_wf degrees df c k st); [lia | exact Hrun]).
    destruct (process_cases degrees df c k st Hk Hwf) as (cur & Hc & H).
    destruct (state st); [congruence | |].
    + destruct H as (prev & r0 & _ & Hprev & _ & H).
      rewrite H in Hp. injection Hp as <-. simpl.
      split; [reflexivity|]. exists cur, prev. auto.
    + destruct H as (prev & r0 & peak & _ & Hprev & _ & _ & H).
      rewrite H in Hp. injection Hp as <-. simpl.
      split; [reflexivity|]. exists cur, prev. auto.
  - intros k st st' Hk Hrun Hs Hp.
    destruct (row_at df k Hk) as [cur Hc].
    rewrite (process_ground degrees df c k st cur Hs Hc) in Hp.
    injection Hp as <-. unfold next_ground.
    destruct (Qgtb (UserAccel_Mag cur) (takeoff_threshold c));
      [right; repeat split | left; reflexivity].
  - intros idx st Hs. apply run_from_same_behaviour.
    unfold same_behaviour, reset_candidate. simpl.
    repeat split. congruence.
Qed.

(** C10.  An iteration in the potential-takeoff phase leaves the phase
    only for airborne (magnitude below [freefall_ceiling], abandon check
    not met) or for ground ([elapsed > 0.5] and magnitude above
    [takeoff_threshold]); elapsed time alone never ends it, and it appends
    no jump.  Hence when every sample from index [k] on has a magnitude in
    [[freefall_ceiling, takeoff_threshold]], a candidate open at [k] stays
    in potential takeoff to the end of the DataFrame, however long that
    lasts, and the call returns the jumps found before it. *)
Theorem potential_takeoff_never_times_out (k : nat) (st : Loop) :
  (k <= length df)%nat -> run_to degrees df c k = Ok st ->
  state st = potential_takeoff ->
  (forall cur r0,
      nth_error df k = Some cur -> nth_error df (jump_start_idx st) = Some r0 ->
      exists st', process degrees df c k st = Ok st'
        /\ jumps st' = jumps st
        /\ (state st' = ground <->
            (1 # 2) < elapsed_between r0 cur
            /\ takeoff_threshold c < UserAccel_Mag cur)
        /\ (state st' = airborne <->
            UserAccel_Mag cur < freefall_ceiling c
            /\ ~ ((1 # 2) < elapsed_between r0 cur
                  /\ takeoff_threshold c < UserAccel_Mag cur))
        /\ (state st' = potential_takeoff <->
            freefall_ceiling c <= UserAccel_Mag cur
            /\ ~ ((1 # 2) < elapsed_between r0 cur
                  /\ takeoff_threshold c < UserAccel_Mag cur)))
  /\ ((forall i cur, (k <= i)%nat -> nth_error df i = Some cur ->
         freefall_ceiling c <= UserAccel_Mag cur <= takeoff_threshold c) ->
      exists st', run_to degrees df c (length df) = Ok st'
        /\ state st' = potential_takeoff
        /\ jump_start_idx st' = jump_start_idx st
        /\ jumps st' = jumps st
        /\ detect_jumps_offline degrees df c = Ok (jumps st)).
Proof.
  intros Hk Hrun Hs. split.
  - intros cur r0 Hc H0.
    assert (Hk' : (k < length df)%nat)
      by (apply nth_error_Some; congruence).
    destruct (potential_takeoff_step k st cur r0 Hk' Hrun Hs Hc H0)
      as (prev & H).
    eexists. split; [exact H|]. unfold next_potential_takeoff. simpl.
    split; [reflexivity|].
    assert (Hab : (1 # 2) < elapsed_between r0 cur
                  /\ takeoff_threshold c < UserAccel_Mag cur
                  <-> Qgtb (elapsed_between r0 cur) (1 # 2)
                      && Qgtb (UserAccel_Mag cur) (takeoff_threshold c) = true)
      by (rewrite andb_true_iff, !Qgtb_true; tauto).
    pose proof (Qltb_true (UserAccel_Mag cur) (freefall_ceiling c)) as Hlt.
    pose proof (Qltb_false (UserAccel_Mag cur) (freefall_ceiling c)) as Hge.
    destruct (Qgtb (elapsed_between r0 cur) (1 # 2)
              && Qgtb (UserAccel_Mag cur) (takeoff_threshold c));
      destruct (Qltb (UserAccel_Mag cur) (freefall_ceiling c));
      intuition (discriminate || congruence).
  - intros Hband.
    assert (Hwf : wf k st)
      by (apply (run_to_wf degrees df c k st); [exact Hk | exact Hrun]).
    destruct (run_from_invariant degrees df c
                (fun i s => state s = potential_takeoff
                            /\ jump_start_idx s = jump_start_idx st
                            /\ jumps s = jumps st /\ (k <= i)%nat))
      with (n := (length df - k)%nat) (k := k) (st := st)
      as (st' & Hrest & _ & Hs' & Hj' & Hjs' & _);
      [| lia | exact Hwf | repeat split; [exact Hs | lia] |].
    + intros i s s' Hi Hwfs (Hsp & Hjs & Hjumps & Hki) Hp.
      destruct (process_cases degrees df c i s Hi Hwfs) as (cur & Hc & H).
      rewrite Hsp in H. destruct H as (prev & r0 & _ & _ & _ & H).
      rewrite H in Hp. injection Hp as <-.
      destruct (Hband i cur Hki Hc) as [Hlo Hhi].
      apply (proj2 (Qltb_false _ _)) in Hlo.
      apply (proj2 (Qgtb_false _ _)) in Hhi.
      unfold next_potential_takeoff. simpl.
      rewrite Hlo, Hhi, andb_false_r. repeat split; try assumption. lia.
    + assert (Hend : run_to degrees df c (length df) = Ok st')
        by (rewrite (run_to_split degrees df c k Hk), Hrun; exact Hrest).
      exists st'. repeat split; try assumption.
      rewrite detect_unfold, Hend. simpl. rewrite Hjs'. reflexivity.
Qed.

End Specified.

(** C1, a run with thresholds none of which is positive: the call is
    accepted and returns (here, no jump). *)
Lemma nonpositive_thresholds_accepted :
  (takeoff_threshold nonpositive_thresholds <= 0
   /\ landing_threshold nonpositive_thresholds <= 0
   /\ min_airtime_s nonpositive_thresholds <= 0
   /\ freefall_ceiling nonpositive_thresholds <= 0
   /\ sample_rate nonpositive_thresholds <= 0)
  /\ detect_jumps_offline degrees_q df_jump nonpositive_thresholds = Ok []
  /\ ~ raises (detect_jumps_offline degrees_q df_jump nonpositive_thresholds).
Proof.
  split; [|split].
  - repeat split; vm_compute; discriminate.
  - vm_compute. reflexivity.
  - intros [e H]. vm_compute in H. discriminate.
Qed.

Lemma detect_never_raises_witness :
  exists st st', run_to degrees_q df_jump nonpositive_thresholds 2 = Ok st
                 /\ process degrees_q df_jump nonpositive_thresholds 2 st = Ok st'.
Proof.
  apply (detect_never_raises degrees_q df_jump nonpositive_thresholds).
  simpl. lia.
Defined.

Lemma no_takeoff_no_jump_witness :
  detect_jumps_offline degrees_q df_quiet default_thresholds = Ok [].
Proof.
  apply no_takeoff_no_jump.
  repeat constructor; vm_compute; discriminate.
Defined.

Lemma duration_at_least_min_airtime_witness :
  exists st' e,
    process degrees_q df_jump thresholds_min_half 3
            {| state := airborne; jump_start_idx := 1;
               accumulated_yaw := 2 # 8; jumps := [] |} = Ok st'
    /\ state st' = ground
    /\ jumps st' = [] ++ [e]
    /\ start_idx e = 1%nat /\ end_idx e = 3%nat
    /\ duration_s e = elapsed_between (row 2 1 (1 # 4)) (row 3 1 (3 # 4)).
Proof.
  destruct (duration_at_least_min_airtime degrees_q df_jump thresholds_min_half)
    as [_ H].
  refine (proj2 (H 3%nat _ (row 3 1 (3 # 4)) (row 2 1 (1 # 4)) _ _ _ _ _ _) _ _).
  - simpl. lia.
  - vm_compute. reflexivity.
  - reflexivity.
  - reflexivity.
  - reflexivity.
  - vm_compute. reflexivity.
  - vm_compute. reflexivity.
  - vm_compute. discriminate.
Defined.

Lemma impact_gate_is_strict_witness :
  impact_gate thresholds_min_one (row 3 1 (3 # 4)) (row 2 1 (1 # 4)) = false
  /\ exists st',
       process degrees_q df_jump thresholds_min_one 3
               {| state := airborne; jump_start_idx := 1;
                  accumulated_yaw := 2 # 8; jumps := [] |} = Ok st'
       /\ jumps st' = []
       /\ state st' = (if Qgtb (elapsed_between (row 2 1 (1 # 4))
                                                (row 3 1 (3 # 4))) 5
                       then ground else airborne)
       /\ (elapsed_between (row 2 1 (1 # 4)) (row 3 1 (3 # 4)) <= 5 ->
           state st' = airborne).
Proof.
  apply (impact_gate_is_strict degrees_q df_jump thresholds_min_one 3%nat).
  - simpl. lia.
  - vm_compute. reflexivity.
  - reflexivity.
  - reflexivity.
  - reflexivity.
  - vm_compute. reflexivity.
  - vm_compute. reflexivity.
Defined.

Lemma jumps_ordered_without_duplicates_witness :
  exists js,
    detect_jumps_offline degrees_q df_two_jumps default_thresholds = Ok js
    /\ StronglySorted (fun e1 e2 => start_time e1 <= start_time e2) js.
Proof.
  destruct (jumps_ordered_without_duplicates
              degrees_q df_two_jumps default_thresholds)
    as (js & H & _ & _ & _ & _ & _ & Htime & _).
  exists js. split; [exact H|]. apply Htime, sorted_times_monotone.
  repeat constructor; vm_compute; discriminate.
Defined.

(** C2, a positive configuration with [takeoff_threshold <
    freefall_ceiling]: the second sample is below the freefall ceiling while
    the machine is in potential takeoff, and the iteration ends on the
    ground, not airborne. *)
Lemma freefall_sample_ends_on_ground :
  positive thresholds_low_takeoff
  /\ run_to degrees_q df_low_takeoff thresholds_low_takeoff 1
     = Ok {| state := potential_takeoff; jump_start_idx := 0;
             accumulated_yaw := 0; jumps := [] |}
  /\ nth_error df_low_takeoff 1 = Some (row (3 # 8) 0 1)
  /\ UserAccel_Mag (row (3 # 8) 0 1) < freefall_ceiling thresholds_low_takeoff
  /\ exists st',
       process degrees_q df_low_takeoff thresholds_low_takeoff 1
               {| state := potential_takeoff; jump_start_idx := 0;
                  accumulated_yaw := 0; jumps := [] |} = Ok st'
       /\ state st' = ground /\ state st' <> airborne.
Proof.
  split; [|split; [|split; [|split]]].
  - repeat split; vm_compute; reflexivity.
  - vm_compute. reflexivity.
  - reflexivity.
  - vm_compute. reflexivity.
  - eexists. split; [vm_compute; reflexivity|]. simpl. split; congruence.
Qed.

Lemma freefall_then_abandon_check_witness :
  exists st',
    process degrees_q df_jump default_thresholds 2
            {| state := potential_takeoff; jump_start_idx := 1;
               accumulated_yaw := 0; jumps := [] |} = Ok st'
    /\ jumps st' = []
    /\ ((1 # 2) < elapsed_between (row 2 1 (1 # 4)) (row (1 # 8) 1 (1 # 2))
        /\ takeoff_threshold default_thresholds
           < UserAccel_Mag (row (1 # 8) 1 (1 # 2)) -> state st' = ground)
    /\ (~ ((1 # 2) < elapsed_between (row 2 1 (1 # 4)) (row (1 # 8) 1 (1 # 2))
           /\ takeoff_threshold default_thresholds
              < UserAccel_Mag (row (1 # 8) 1 (1 # 2))) -> state st' = airborne)
    /\ (freefall_ceiling default_thresholds
        <= takeoff_threshold default_thresholds -> state st' = airborne).
Proof.
  apply (freefall_then_abandon_check degrees_q df_jump default_thresholds 2%nat).
  - simpl. lia.
  - vm_compute. reflexivity.
  - reflexivity.
  - reflexivity.
  - reflexivity.
  - vm_compute. reflexivity.
Defined.

(** C9, the landing of [df_jump]: the iteration at index 3 returns to the
    ground, and the start index and the yaw accumulator keep their values
    instead of going back to the initial ones. *)
Lemma ground_keeps_candidate_data :
  run_to degrees_q df_jump default_thresholds 3
  = Ok {| state := airborne; jump_start_idx := 1;
          accumulated_yaw := 2 # 8; jumps := [] |}
  /\ exists st',
       process degrees_q df_jump default_thresholds 3
               {| state := airborne; jump_start_idx := 1;
                  accumulated_yaw := 2 # 8; jumps := [] |} = Ok st'
       /\ state st' = ground
       /\ jump_start_idx st' = 1%nat
       /\ jump_start_idx st' <> jump_start_idx init
       /\ accumulated_yaw st' == 1 # 2
       /\ ~ accumulated_yaw st' == accumulated_yaw init.
Proof.
  split; [vm_compute; reflexivity|].
  eexists. split; [vm_compute; reflexivity|]. simpl.
  repeat split; try reflexivity; try discriminate.
Qed.

Lemma candidate_data_kept_until_next_takeoff_witness :
  jump_start_idx
    {| state := ground; jump_start_idx := 1; accumulated_yaw := 32 # 64;
       jumps := [ {| start_idx := 1; end_idx := 3; start_time := 1 # 4;
                     end_time := 3 # 4; duration_s := 8 # 16;
                     yaw_degrees := degrees_q (32 # 64); peak_accel := 3;
                     landing_impact := 3 |} ] |}
  = jump_start_idx
      {| state := airborne; jump_start_idx := 1;
         accumulated_yaw := 2 # 8; jumps := [] |}
  /\ exists cur prev,
       nth_error df_jump 3 = Some cur /\ nth_error df_jump (3 - 1) = Some prev
       /\ 32 # 64 = (2 # 8) + RotationRate_Z cur * (Time_s cur - Time_s prev).
Proof.
  destruct (candidate_data_kept_until_next_takeoff
              degrees_q df_jump default_thresholds) as [H _].
  refine (H 3%nat {| state := airborne; jump_start_idx := 1;
                     accumulated_yaw := 2 # 8; jumps := [] |} _ _ _ _ _).
  - simpl. lia.
  - vm_compute. reflexivity.
  - simpl. discriminate.
  - vm_compute. reflexivity.
Defined.

Lemma potential_takeoff_never_times_out_witness :
  exists st',
    run_to degrees_q df_linger default_thresholds (length df_linger) = Ok st'
    /\ state st' = potential_takeoff
    /\ jump_start_idx st' = 0%nat
    /\ jumps st' = []
    /\ detect_jumps_offline degrees_q df_linger default_thresholds = Ok [].
Proof.
  refine (proj2 (potential_takeoff_never_times_out
                   degrees_q df_linger default_thresholds 1%nat
                   {| state := potential_takeoff; jump_start_idx := 0;
                      accumulated_yaw := 0; jumps := [] |} _ _ _) _).
  - simpl. lia.
  - vm_compute. reflexivity.
  - reflexivity.
  - intros i cur Hi Hc.
    destruct i as [|[|[|[|[|i]]]]]; try lia; simpl in Hc;
      try (injection Hc as <-; split; vm_compute; discriminate).
    destruct i; discriminate.
Defined.

(** * Further properties of the detector *)

Section Details.

Variable degrees : Q -> Q.
Variable df : DataFrame.
Variable c : Thresholds.

Lemma yaw_integral_start (s : nat) : yaw_integral df s (S s) = 0.
Proof. unfold yaw_integral. rewrite Nat.sub_diag. reflexivity. Qed.

Lemma yaw_integral_step (s k : nat) (cur prev : Row) :
  (s < k)%nat -> nth_error df k = Some cur -> nth_error df (k - 1) = Some prev ->
  yaw_integral df s (S k)
  = yaw_integral df s k + RotationRate_Z cur * (Time_s cur - Time_s prev).
Proof.
  intros Hs Hc Hp. unfold yaw_integral.
  replace (S k - S s)%nat with (S (k - S s)) by lia.
  rewrite seq_S, fold_left_app. simpl.
  replace (S (s + (k - S s))) with k by lia.
  unfold yaw_increment. rewrite Hc, Hp. reflexivity.
Qed.

Lemma details_inv_init : details_inv degrees df c 0 init.
Proof.
  unfold details_inv. simpl.
  split; [intros H; congruence | split; [discriminate | constructor]].
Qed.

Lemma process_details_inv (i : nat) (st st' : Loop) :
  (i < length df)%nat -> wf i st -> details_inv degrees df c i st ->
  process degrees df c i st = Ok st' -> details_inv degrees df c (S i) st'.
Proof.
  intros Hi Hwf (Hopen & Hair & Hall) Hp.
  destruct (process_cases degrees df c i st Hi Hwf) as (cur & Hc & H).
  destruct (state st) eqn:Hs.
  - rewrite H in Hp. injection Hp as <-. unfold next_ground.
    destruct (Qgtb (UserAccel_Mag cur) (takeoff_threshold c)) eqn:E.
    + unfold details_inv. simpl. split; [|split; [discriminate | exact Hall]].
      intros _. split; [symmetry; apply yaw_integral_start|].
      exists cur. split; [exact Hc | apply Qgtb_true; exact E].
    + unfold details_inv. rewrite Hs.
      split; [congruence | split; [discriminate | exact Hall]].
  - destruct H as (prev & r0 & Hj & Hprev & H0 & H).
    rewrite H in Hp. injection Hp as <-.
    destruct Hopen as [Hyaw Hto]; [discriminate|].
    unfold details_inv, next_potential_takeoff. simpl.
    split; [|split; [|exact Hall]].
    + intros _. split; [|exact Hto].
      rewrite (yaw_integral_step _ i cur prev Hj Hc Hprev), Hyaw. reflexivity.
    + destruct (Qgtb (elapsed_between r0 cur) (1 # 2)
                && Qgtb (UserAccel_Mag cur) (takeoff_threshold c));
        [discriminate|].
      destruct (Qltb (UserAccel_Mag cur) (freefall_ceiling c)) eqn:E;
        [|discriminate].
      intros _. exists i, cur. repeat split; try lia; try exact Hc.
      apply Qltb_true. exact E.
  - destruct H as (prev & r0 & peak & Hj & Hprev & H0 & Hpk & H).
    rewrite H in Hp. injection Hp as <-.
    destruct Hopen as [Hyaw Hto]; [discriminate|].
    destruct (Hair eq_refl) as (f & rf & Hf & Hrf & Hlow).
    unfold details_inv, next_airborne. simpl.
    split; [|split].
    + intros _. split; [|exact Hto].
      rewrite (yaw_integral_step _ i cur prev Hj Hc Hprev), Hyaw. reflexivity.
    + intros _. exists f, rf. repeat split; try lia; assumption.
    + destruct (impact_gate c cur r0) eqn:Hg; simpl; [|exact Hall].
      destruct (Qgeb (elapsed_between r0 cur) (min_airtime_s c)); [|exact Hall].
      apply Forall_app. split; [exact Hall|].
      constructor; [|constructor].
      unfold impact_gate in Hg. apply andb_true_iff in Hg.
      destruct Hg as [Hg1 Hg2].
      apply Qgtb_true in Hg1. apply Qgtb_true in Hg2.
      split.
      * constructor; simpl.
        -- destruct Hto as (r & Hr & Hgt). exists r. auto.
        -- exists f, rf. repeat split; try lia; assumption.
        -- exact Hg1.
        -- exact Hg2.
      * unfold jump_yaw. simpl.
        rewrite (yaw_integral_step _ i cur prev Hj Hc Hprev), Hyaw. reflexivity.
Qed.

(** The call returns, and its jumps satisfy all the invariants. *)
Lemma detect_returns_details :
  exists js, detect_jumps_offline degrees df c = Ok js
             /\ Forall (jump_ok df c) js
             /\ StronglySorted before js
             /\ Forall (jump_anatomy df c) js
             /\ Forall (jump_yaw degrees df) js.
Proof.
  destruct (run_to_invariant degrees df c
              (fun k st => jumps_inv df c k st /\ details_inv degrees df c k st))
    with (k := length df) as (st & H & _ & (Hok & _ & Hsort) & (_ & _ & Hdet)).
  - split; [apply jumps_inv_init | apply details_inv_init].
  - intros i st st' Hi Hwf [H1 H2] Hp. split.
    + apply (process_jumps_inv degrees df c i st st'); assumption.
    + apply (process_details_inv i st st'); assumption.
  - lia.
  - exists (jumps st). rewrite detect_unfold, H. simpl.
    repeat split; try exact Hsort.
    + revert Hok. apply Forall_impl. intros e [He _]. exact He.
    + revert Hdet. apply Forall_impl. intros e [He _]. exact He.
    + revert Hdet. apply Forall_impl. intros e [_ He]. exact He.
Qed.

(** Disjoint windows of at least three samples each fit at most
    [(n - lo) / 3] times between [lo] and [n]. *)
Lemma windows_count (js : list Jump) (n : nat) :
  StronglySorted before js ->
  Forall (fun e => (start_idx e + 2 <= end_idx e)%nat /\ (end_idx e < n)%nat) js ->
  forall lo, Forall (fun e => (lo <= start_idx e)%nat) js ->
  (3 * length js <= n - lo)%nat.
Proof.
  induction 1 as [|e js Hs IH He]; intros Hall lo Hlo; simpl; [lia|].
  apply Forall_cons_iff in Hall. destruct Hall as [[H1 H2] Hall].
  apply Forall_cons_iff in Hlo. destruct Hlo as [Hlo _].
  assert (Hnext : Forall (fun e' => (lo + 3 <= start_idx e')%nat) js).
  { revert He. apply Forall_impl. intros e' Hb. unfold before in Hb. lia. }
  specialize (IH Hall (lo + 3)%nat Hnext). lia.
Qed.

(** X1.  Every jump returned is made of a sample above [takeoff_threshold]
    at [start_idx], a sample below [freefall_ceiling] strictly between
    [start_idx] and [end_idx], and a sample above [landing_threshold] at
    [end_idx], which is the recorded [landing_impact]; so it spans at least
    three samples, and its duration is above half of [min_airtime_s]. *)
Theorem jump_has_takeoff_freefall_landing :
  exists js, detect_jumps_offline degrees df c = Ok js
    /\ Forall (fun e =>
         jump_anatomy df c e
         /\ (start_idx e + 2 <= end_idx e)%nat
         /\ nth_error (accel_mag_of df) (end_idx e) = Some (landing_impact e)) js.
Proof.
  destruct detect_returns_details as (js & H & Hok & _ & Han & _).
  exists js. split; [exact H|].
  rewrite Forall_forall in *. intros e He.
  pose proof (Han e He) as Ha. pose proof (Hok e He) as Ho.
  split; [exact Ha|]. split.
  - destruct (ja_freefall df c e Ha) as (f & _ & Hf & _). lia.
  - apply (jo_impact df c e Ho).
Qed.

(** X2.  The windows of the jumps are disjoint and hold at least three
    samples each: a DataFrame of [n] samples gives at most [n / 3] jumps, and
    none when it has fewer than three samples. *)
Theorem at_most_one_jump_per_three_samples :
  exists js, detect_jumps_offline degrees df c = Ok js
    /\ (3 * length js <= length df)%nat
    /\ ((length df < 3)%nat -> js = []).
Proof.
  destruct detect_returns_details as (js & H & Hok & Hsort & Han & _).
  exists js. split; [exact H|].
  assert (Hn : (3 * length js <= length df - 0)%nat).
  { apply windows_count; [exact Hsort | | apply Forall_forall; intros; lia].
    rewrite Forall_forall in *. intros e He.
    destruct (ja_freefall df c e (Han e He)) as (f & _ & Hf & _).
    pose proof (jo_range df c e (Hok e He)). lia. }
  split; [lia|]. intros Hshort. destruct js; [reflexivity | simpl in Hn; lia].
Qed.

(** X3.  The yaw of every jump returned is [degrees] of the sum, taken from
    zero in sample order, of [rotation_z[k] * (timestamps[k] -
    timestamps[k - 1])] over the samples [start_idx + 1 .. end_idx]: the
    push-off sample adds nothing, the landing sample is included. *)
Theorem yaw_is_sum_after_takeoff :
  exists js, detect_jumps_offline degrees df c = Ok js
    /\ Forall (fun e =>
         yaw_degrees e
         = degrees (fold_left (fun acc k => acc + yaw_increment df k)
                              (seq (S (start_idx e)) (end_idx e - start_idx e))
                              0)) js.
Proof.
  destruct detect_returns_details as (js & H & _ & _ & _ & Hyaw).
  exists js. split; [exact H|]. revert Hyaw. apply Forall_impl.
  intros e He. exact He.
Qed.

(** X4.  A jump needs a freefall sample and a landing sample: when no
    magnitude is below [freefall_ceiling] (so whenever [freefall_ceiling] is
    not positive and the magnitudes are not negative), or none is above
    [landing_threshold], no jump is returned. *)
Theorem no_freefall_or_no_impact_no_jump :
  (Forall (fun r => ~ UserAccel_Mag r < freefall_ceiling c) df
   \/ Forall (fun r => ~ landing_threshold c < UserAccel_Mag r) df) ->
  detect_jumps_offline degrees df c = Ok [].
Proof.
  intros Hnone.
  destruct detect_returns_details as (js & H & Hok & _ & Han & _).
  rewrite H. destruct js as [|e js]; [reflexivity|]. exfalso.
  apply Forall_cons_iff in Han. destruct Han as [Ha _].
  apply Forall_cons_iff in Hok. destruct Hok as [Ho _].
  destruct Hnone as [Hff | Hld]; rewrite Forall_forall in *.
  - destruct (ja_freefall df c e Ha) as (f & r & _ & Hr & Hlow).
    apply (Hff r); [eapply nth_error_In; exact Hr | exact Hlow].
  - pose proof (jo_impact df c e Ho) as Himp.
    apply nth_error_col in Himp. destruct Himp as (r & Hr & Heq).
    apply (Hld r); [eapply nth_error_In; exact Hr|].
    rewrite Heq. apply (ja_landing df c e Ha).
Qed.

End Details.

(** ** Two runs side by side *)

Lemma slice_app_l (a b : list Q) (lo hi : nat) :
  (hi <= length a)%nat -> slice (a ++ b) lo hi = slice a lo hi.
Proof.
  intros Hhi. apply nth_error_ext. intros j. rewrite !nth_error_slice.
  destruct (j <? hi - lo)%nat eqn:E; [|reflexivity].
  apply Nat.ltb_lt in E. apply nth_error_app1. lia.
Qed.

Lemma slice_app_r (a b : list Q) (lo hi : nat) :
  slice (a ++ b) (length a + lo) (length a + hi) = slice b lo hi.
Proof.
  apply nth_error_ext. intros j. rewrite !nth_error_slice.
  replace (length a + hi - (length a + lo))%nat with (hi - lo)%nat by lia.
  destruct (j <? hi - lo)%nat; [|reflexivity].
  rewrite nth_error_app2 by lia. f_equal. lia.
Qed.

Section Simulation.

Variable degrees : Q -> Q.
Variables dfA dfB : DataFrame.
Variables cA cB : Thresholds.
Variables a b : nat.
Variable R : Loop -> Loop -> Prop.

Hypothesis R_step : forall j sA sB sA' sB',
  (a + j < length dfA)%nat -> (b + j < length dfB)%nat ->
  wf (a + j) sA -> wf (b + j) sB -> R sA sB ->
  process degrees dfA cA (a + j) sA = Ok sA' ->
  process degrees dfB cB (b + j) sB = Ok sB' ->
  R sA' sB'.

(** A relation kept by every pair of iterations is kept by the two loops. *)
Lemma run_from_simulation (m : nat) (sA0 sB0 : Loop) :
  (a + m <= length dfA)%nat -> (b + m <= length dfB)%nat ->
  wf a sA0 -> wf b sB0 -> R sA0 sB0 ->
  exists sA sB,
    run_from degrees dfA cA (seq a m) sA0 = Ok sA
    /\ run_from degrees dfB cB (seq b m) sB0 = Ok sB
    /\ wf (a + m) sA /\ wf (b + m) sB /\ R sA sB.
Proof.
  intros HA HB HwA HwB HR. induction m as [|m IH].
  - exists sA0, sB0. rewrite !Nat.add_0_r. simpl. auto.
  - destruct IH as (sA & sB & HrA & HrB & HwA' & HwB' & HR'); [lia | lia |].
    destruct (process_total degrees dfA cA (a + m) sA) as (sA' & HpA & HwA'');
      [lia | exact HwA' |].
    destruct (process_total degrees dfB cB (b + m) sB) as (sB' & HpB & HwB'');
      [lia | exact HwB' |].
    exists sA', sB'. rewrite !seq_S, !run_from_app, HrA, HrB. cbn [bind].
    rewrite !run_from_cons, HpA, HpB. cbn [bind].
    replace (a + S m)%nat with (S (a + m)) by lia.
    replace (b + S m)%nat with (S (b + m)) by lia.
    repeat split; try assumption.
    apply (R_step m sA sB sA' sB'); try assumption; lia.
Qed.

End Simulation.

Section Growth.

Variable degrees : Q -> Q.
Variable df : DataFrame.
Variable c : Thresholds.

(** The jumps only grow along the loop. *)
Lemma run_from_extends (n k : nat) (st : Loop) :
  (k + n <= length df)%nat -> wf k st ->
  exists st' rest, run_from degrees df c (seq k n) st = Ok st'
                   /\ jumps st' = jumps st ++ rest.
Proof.
  intros Hk Hwf.
  destruct (run_from_invariant degrees df c
              (fun _ s => exists rest, jumps s = jumps st ++ rest))
    with (n := n) (k := k) (st := st) as (st' & H & _ & rest & Hrest);
    [| exact Hk | exact Hwf | exists []; symmetry; apply app_nil_r |].
  - intros i s s' Hi Hws [rest Hr] Hp.
    destruct (process_appends_at_most_one degrees df c i s s' Hi Hws Hp)
      as [E | (e & E & _)]; rewrite E, Hr.
    + eauto.
    + exists (rest ++ [e]). rewrite app_assoc. reflexivity.
  - eauto.
Qed.

End Growth.

Section Causality.

Variable degrees : Q -> Q.
Variable df : DataFrame.
Variable c : Thresholds.

(** An iteration reads no sample after the current one. *)
Lemma process_prefix (more : DataFrame) (i : nat) (st : Loop) :
  (i < length df)%nat -> wf i st ->
  process degrees (df ++ more) c i st = process degrees df c i st.
Proof.
  intros Hi Hwf.
  destruct (process_cases degrees df c i st Hi Hwf) as (cur & Hc & H).
  assert (Hin : forall j r, nth_error df j = Some r ->
                            nth_error (df ++ more) j = Some r).
  { intros j r Hj. rewrite nth_error_app1; [exact Hj|].
    apply nth_error_Some. congruence. }
  destruct (state st) eqn:Hs.
  - rewrite H. apply process_ground; auto.
  - destruct H as (prev & r0 & Hj & Hp & H0 & H). rewrite H.
    apply process_potential_takeoff; auto. lia.
  - destruct H as (prev & r0 & peak & Hj & Hp & H0 & Hpk & H). rewrite H.
    apply process_airborne; auto; [lia|].
    unfold accel_mag_of in *. rewrite map_app, slice_app_l; [exact Hpk|].
    rewrite length_map. lia.
Qed.

Lemma run_to_prefix (more : DataFrame) (k : nat) :
  (k <= length df)%nat ->
  run_to degrees (df ++ more) c k = run_to degrees df c k.
Proof.
  intros Hk.
  destruct (run_from_simulation degrees df (df ++ more) c c 0 0 eq)
    with (m := k) (sA0 := init) (sB0 := init)
    as (sA & sB & HA & HB & _ & _ & <-);
    try apply wf_init; try reflexivity; try (rewrite ?length_app; simpl; lia).
  - intros j sA sB sA' sB' HjA _ HwA _ <- HpA HpB. simpl in *.
    rewrite process_prefix in HpB by assumption. congruence.
  - unfold run_to. rewrite HA, HB. reflexivity.
Qed.

(** X5.  The detector is causal: the loop variables after the first [k]
    samples do not depend on the samples that follow, and the jumps of a
    DataFrame are a prefix of the jumps of any extension of it. *)
Theorem detection_is_causal (more : DataFrame) :
  (forall k, (k <= length df)%nat ->
     run_to degrees (df ++ more) c k = run_to degrees df c k)
  /\ exists js later,
       detect_jumps_offline degrees df c = Ok js
       /\ detect_jumps_offline degrees (df ++ more) c = Ok (js ++ later).
Proof.
  split; [intros k Hk; apply run_to_prefix; exact Hk|].
  destruct (run_to_total degrees df c (length df) (Nat.le_refl _))
    as (st & Hrun & Hwf).
  destruct (run_to_total degrees (df ++ more) c (length df)) as (st0 & H0 & Hwf0);
    [rewrite length_app; lia|].
  rewrite run_to_prefix, Hrun in H0 by lia. injection H0 as <-.
  destruct (run_from_extends degrees (df ++ more) c
              (length (df ++ more) - length df) (length df) st)
    as (st' & later & Hrest & Hjs); [rewrite length_app; lia | exact Hwf0 |].
  exists (jumps st), later. split.
  - rewrite detect_unfold, Hrun. reflexivity.
  - rewrite detect_unfold.
    rewrite (run_to_split degrees (df ++ more) c (length df))
      by (rewrite length_app; lia).
    rewrite run_to_prefix, Hrun by lia. simpl. rewrite Hrest. simpl.
    rewrite Hjs. reflexivity.
Qed.

End Causality.

Section SampleRate.

Variable degrees : Q -> Q.
Variable df : DataFrame.
Variable c : Thresholds.

Lemma process_sample_rate (rate : Q) (i : nat) (st : Loop) :
  (i < length df)%nat -> wf i st ->
  process degrees df (with_sample_rate c rate) i st = process degrees df c i st.
Proof.
  intros Hi Hwf.
  destruct (process_cases degrees df c i st Hi Hwf) as (cur & Hc & H).
  destruct (state st) eqn:Hs.
  - rewrite H, (process_ground degrees df (with_sample_rate c rate) i st cur)
      by assumption.
    reflexivity.
  - destruct H as (prev & r0 & Hj & Hp & H0 & H).
    rewrite H, (process_potential_takeoff degrees df (with_sample_rate c rate)
                  i st cur prev r0) by (assumption || lia).
    reflexivity.
  - destruct H as (prev & r0 & peak & Hj & Hp & H0 & Hpk & H).
    rewrite H, (process_airborne degrees df (with_sample_rate c rate)
                  i st cur prev r0 peak) by (assumption || lia).
    reflexivity.
Qed.

(** X6.  The [sample_rate] argument has no effect: its only use, the
    fallback [dt = 1.0 / sample_rate] for index 0, is never evaluated,
    because index 0 is always processed in the ground phase.  Any value,
    zero included, gives the same result. *)
Theorem sample_rate_is_never_used (rate : Q) :
  detect_jumps_offline degrees df (with_sample_rate c rate)
  = detect_jumps_offline degrees df c.
Proof.
  destruct (run_from_simulation degrees df df c (with_sample_rate c rate) 0 0 eq)
    with (m := length df) (sA0 := init) (sB0 := init)
    as (sA & sB & HA & HB & _ & _ & <-);
    try apply wf_init; try reflexivity; try lia.
  - intros j sA sB sA' sB' Hj _ Hw _ <- HpA HpB. simpl in *.
    rewrite process_sample_rate in HpB by assumption. congruence.
  - rewrite !detect_unfold. unfold run_to. rewrite HA, HB. reflexivity.
Qed.

End SampleRate.

Section Concatenation.

Variable degrees : Q -> Q.
Variables df1 df2 : DataFrame.
Variable c : Thresholds.

Lemma nth_error_joined (j : nat) (r : Row) :
  nth_error df2 j = Some r -> nth_error (df1 ++ df2) (length df1 + j) = Some r.
Proof.
  intros H. rewrite nth_error_app2 by lia.
  replace (length df1 + j - length df1)%nat with j by lia. exact H.
Qed.

Lemma process_joined (js1 : list Jump) (j : nat) (s2 s s2' s' : Loop) :
  (j < length df2)%nat -> wf j s2 -> joined (length df1) js1 s2 s ->
  process degrees df2 c j s2 = Ok s2' ->
  process degrees (df1 ++ df2) c (length df1 + j) s = Ok s' ->
  joined (length df1) js1 s2' s'.
Proof.
  intros Hj Hwf (Hst & Hjs & Hopen) Hp2 Hp.
  destruct (process_cases degrees df2 c j s2 Hj Hwf) as (cur & Hc & H).
  pose proof (nth_error_joined j cur Hc) as Hc'.
  destruct (state s2) eqn:Hs2.
  - rewrite H in Hp2. injection Hp2 as <-.
    rewrite (process_ground degrees (df1 ++ df2) c _ s cur Hst Hc') in Hp.
    injection Hp as <-. unfold next_ground.
    destruct (Qgtb (UserAccel_Mag cur) (takeoff_threshold c)).
    + unfold joined. simpl. auto.
    + unfold joined. rewrite Hs2. repeat split; try assumption; congruence.
  - destruct H as (prev & r0 & Hlt & Hprev & H0 & H).
    rewrite H in Hp2. injection Hp2 as <-.
    destruct Hopen as [Hidx Hyaw]; [discriminate|].
    rewrite (process_potential_takeoff degrees (df1 ++ df2) c _ s cur prev r0)
      in Hp; [| exact Hst | lia | exact Hc' | | ].
    + injection Hp as <-. unfold joined, next_potential_takeoff. simpl.
      rewrite Hyaw. auto.
    + replace (length df1 + j - 1)%nat with (length df1 + (j - 1))%nat by lia.
      apply nth_error_joined, Hprev.
    + rewrite Hidx. apply nth_error_joined, H0.
  - destruct H as (prev & r0 & peak & Hlt & Hprev & H0 & Hpk & H).
    rewrite H in Hp2. injection Hp2 as <-.
    destruct Hopen as [Hidx Hyaw]; [discriminate|].
    rewrite (process_airborne degrees (df1 ++ df2) c _ s cur prev r0 peak)
      in Hp; [| exact Hst | lia | exact Hc' | | | ].
    + injection Hp as <-. unfold joined, next_airborne. simpl.
      split; [reflexivity|]. split; [|intros _; rewrite Hyaw; auto].
      destruct (impact_gate c cur r0
                && Qgeb (elapsed_between r0 cur) (min_airtime_s c));
        [|exact Hjs].
      rewrite map_app, app_assoc, Hjs. simpl. f_equal. f_equal.
      unfold confirmed_jump, shift_jump. simpl. rewrite Hidx, Hyaw. reflexivity.
    + replace (length df1 + j - 1)%nat with (length df1 + (j - 1))%nat by lia.
      apply nth_error_joined, Hprev.
    + rewrite Hidx. apply nth_error_joined, H0.
    + rewrite Hidx. unfold accel_mag_of in *. rewrite map_app.
      replace (length df1) with (length (map UserAccel_Mag df1))
        by apply length_map.
      replace (length (map UserAccel_Mag df1) + j + 1)%nat
        with (length (map UserAccel_Mag df1) + (j + 1))%nat by lia.
      rewrite slice_app_r. exact Hpk.
Qed.

(** X7.  Cutting the samples where the machine is on the ground loses
    nothing: when the loop over [df1] ends in the ground phase, the jumps of
    [df1 ++ df2] are the jumps of [df1] followed by the jumps of [df2] with
    their indices moved by [len(df1)]. *)
Theorem detection_splits_on_the_ground (st1 : Loop) :
  run_to degrees df1 c (length df1) = Ok st1 -> state st1 = ground ->
  exists js2,
    detect_jumps_offline degrees df1 c = Ok (jumps st1)
    /\ detect_jumps_offline degrees df2 c = Ok js2
    /\ detect_jumps_offline degrees (df1 ++ df2) c
       = Ok (jumps st1 ++ map (shift_jump (length df1)) js2).
Proof.
  intros Hrun Hs.
  destruct (run_from_simulation degrees df2 (df1 ++ df2) c c 0 (length df1)
              (joined (length df1) (jumps st1)))
    with (m := length df2) (sA0 := init) (sB0 := st1)
    as (s2 & s & H2 & H & _ & _ & (_ & Hjs & _)).
  - intros j sA sB sA' sB' HjA _ HwA _ HR HpA HpB. simpl in *.
    apply (process_joined (jumps st1) j sA sB sA' sB'); assumption.
  - simpl. lia.
  - rewrite length_app. lia.
  - apply wf_init.
  - apply (run_to_wf degrees df1 c (length df1) st1); [lia | exact Hrun].
  - unfold joined. simpl. rewrite app_nil_r, Hs.
    split; [reflexivity | split; [reflexivity | congruence]].
  - exists (jumps s2). split; [|split].
    + rewrite detect_unfold, Hrun. reflexivity.
    + rewrite detect_unfold. unfold run_to. rewrite H2. reflexivity.
    + rewrite detect_unfold.
      rewrite (run_to_split degrees (df1 ++ df2) c (length df1))
        by (rewrite length_app; lia).
      rewrite run_to_prefix, Hrun by lia. cbn [bind].
      replace (length (df1 ++ df2) - length df1)%nat with (length df2)
        by (rewrite length_app; lia).
      rewrite H. cbn [bind]. rewrite Hjs. reflexivity.
Qed.

End Concatenation.

(** * The other functions *)

(** ** The yaw label of [print_jump_summary] *)



Lemma inject_Z_pos_ge_1 (n : Z) : 0 < inject_Z n -> (1 <= n)%Z.
Proof.
  intros H. change 0 with (inject_Z 0) in H. rewrite <- Zlt_Qlt in H. lia.
Qed.


Section Reports.

Variable degrees : Q -> Q.
Variable df : DataFrame.

(** The number of jumps found in [df], whatever the thresholds. *)
Lemma jumps_count (c : Thresholds) (js : list Jump) :
  Forall (jump_ok df c) js -> StronglySorted before js ->
  Forall (jump_anatomy df c) js ->
  (3 * length js <= length df)%nat.
Proof.
  intros Hok Hsort Han.
  assert (Hn : (3 * length js <= length df - 0)%nat).
  { apply windows_count; [exact Hsort | | apply Forall_forall; intros; lia].
    rewrite Forall_forall in *. intros e He.
    destruct (ja_freefall df c e (Han e He)) as (f & _ & Hf & _).
    pose proof (jo_range df c e (Hok e He)). lia. }
  lia.
Qed.

(** X11.  The totals of [print_jump_summary] never raise; there are none
    exactly for an empty list.  For the jumps detected in a DataFrame, the
    total is their number, and the longest airtime is the duration of one of
    the jumps, is not below the duration of any of them, and is at least
    [min_airtime_s]. *)
Theorem summary_of_detected_jumps (c : Thresholds) :
  (forall jumps, exists r, summary_totals jumps = Ok r
                           /\ (r = None <-> jumps = []))
  /\ exists js,
       detect_jumps_offline degrees df c = Ok js
       /\ (js <> [] ->
           exists t,
             summary_totals js = Ok (Some t)
             /\ total t = length js
             /\ (exists e, In e js /\ max_airtime t = duration_s e)
             /\ Forall (fun e => duration_s e <= max_airtime t) js
             /\ min_airtime_s c <= max_airtime t).
Proof.
  split.
  - intros [|j jumps]; simpl.
    + exists None. split; [reflexivity | tauto].
    + eexists. split; [reflexivity|]. split; discriminate.
  - destruct (detect_returns degrees df c) as (js & H & Hok & _).
    exists js. split; [exact H|]. intros Hne.
    destruct js as [|j js]; [congruence|].
    set (durations := map duration_s (j :: js)).
    destruct (array_max_spec durations _ eq_refl) as [Hin Hall].
    eexists. split; [reflexivity|]. cbn [total max_airtime].
    split; [reflexivity|].
    apply in_map_iff in Hin. destruct Hin as (e & He & Hine).
    split; [eauto|]. split.
    + rewrite Forall_forall in Hall. apply Forall_forall. intros x Hx.
      apply Hall. unfold durations. apply in_map. exact Hx.
    + rewrite <- He. apply Forall_cons_iff in Hok. rewrite Forall_forall in Hok.
      destruct Hok as [Hj Hok].
      destruct Hine as [<-|Hine];
        [apply (jo_min_airtime df c j Hj)
        | apply (jo_min_airtime df c e (Hok e Hine))].
Qed.

(** One cell of the sweep. *)
Lemma sweep_cell_spec (to_thresh ld_thresh : Q) :
  exists js,
    detect_jumps_offline degrees df (sweep_thresholds to_thresh ld_thresh) = Ok js
    /\ sweep_cell degrees df to_thresh ld_thresh
       = Ok {| sweep_takeoff_threshold := to_thresh;
               sweep_landing_threshold := ld_thresh;
               num_jumps := length js;
               avg_duration := mean_or_zero (map duration_s js) |}
    /\ (3 * length js <= length df)%nat
    /\ (js = [] -> mean_or_zero (map duration_s js) = 0).
Proof.
  destruct (detect_returns_details degrees df (sweep_thresholds to_thresh ld_thresh))
    as (js & H & Hok & Hsort & Han & _).
  exists js. split; [exact H|]. split; [|split].
  - unfold sweep_cell. rewrite H. reflexivity.
  - apply (jumps_count _ js Hok Hsort Han).
  - intros ->. reflexivity.
Qed.

Lemma sweep_landing_spec (to_thresh : Q) (landing_range : list Q) :
  forall results, exists rows,
    sweep_landing degrees df to_thresh landing_range results
    = Ok (results ++ rows)
    /\ Forall2 (fun tl r => sweep_cell degrees df (fst tl) (snd tl) = Ok r)
               (map (pair to_thresh) landing_range) rows.
Proof.
  induction landing_range as [|ld rest IH]; intros results; simpl.
  - exists []. rewrite app_nil_r. split; [reflexivity | constructor].
  - destruct (sweep_cell_spec to_thresh ld) as (js & _ & Hcell & _).
    rewrite Hcell. cbn [bind].
    destruct (IH (results ++ [ {| sweep_takeoff_threshold := to_thresh;
                                  sweep_landing_threshold := ld;
                                  num_jumps := length js;
                                  avg_duration := mean_or_zero (map duration_s js) |} ]))
      as (rows & Hrows & Hall).
    eexists (_ :: rows). rewrite Hrows, <- app_assoc. split; [reflexivity|].
    constructor; [exact Hcell | exact Hall].
Qed.

Lemma sweep_takeoff_spec (landing_range takeoff_range : list Q) :
  forall results, exists rows,
    sweep_takeoff degrees df takeoff_range landing_range results
    = Ok (results ++ rows)
    /\ Forall2 (fun tl r => sweep_cell degrees df (fst tl) (snd tl) = Ok r)
               (list_prod takeoff_range landing_range) rows.
Proof.
  induction takeoff_range as [|t rest IH]; intros results; simpl.
  - exists []. rewrite app_nil_r. split; [reflexivity | constructor].
  - destruct (sweep_landing_spec t landing_range results) as (rows1 & H1 & Hall1).
    rewrite H1. cbn [bind].
    destruct (IH (results ++ rows1)) as (rows2 & H2 & Hall2).
    exists (rows1 ++ rows2). rewrite H2, <- app_assoc. split; [reflexivity|].
    apply Forall2_app; assumption.
Qed.

(** X12.  The threshold sweep never raises and fills one row per pair of
    thresholds, takeoff thresholds outermost, in the order of the two
    ranges.  In every row, [num_jumps] is the number of jumps detected with
    these two thresholds and the other arguments at their defaults, it is at
    most a third of the number of samples, and [avg_duration] is 0 when
    there is no jump. *)
Theorem threshold_sweep_grid (takeoff_range landing_range : list Q) :
  exists rows,
    threshold_sweep degrees df takeoff_range landing_range = Ok rows
    /\ length rows = (length takeoff_range * length landing_range)%nat
    /\ map (fun r => (sweep_takeoff_threshold r, sweep_landing_threshold r)) rows
       = list_prod takeoff_range landing_range
    /\ Forall (fun r =>
         (exists js,
            detect_jumps_offline degrees df
              (sweep_thresholds (sweep_takeoff_threshold r)
                                (sweep_landing_threshold r)) = Ok js
            /\ num_jumps r = length js)
         /\ (3 * num_jumps r <= length df)%nat
         /\ (num_jumps r = 0%nat -> avg_duration r = 0)) rows.
Proof.
  destruct (sweep_takeoff_spec landing_range takeoff_range [])
    as (rows & H & Hall).
  exists rows. split; [exact H|].
  assert (Hlen : length rows = length (list_prod takeoff_range landing_range)).
  { clear H. induction Hall; simpl; congruence. }
  split; [rewrite Hlen; apply length_prod|]. clear H Hlen. split.
  - induction Hall as [|[t l] r pairs rows Hcell _ IH]; simpl; [reflexivity|].
    rewrite IH. f_equal. simpl in Hcell.
    destruct (sweep_cell_spec t l) as (js & _ & Hc & _).
    rewrite Hc in Hcell. injection Hcell as <-. reflexivity.
  - induction Hall as [|[t l] r pairs rows Hcell _ IH]; constructor; [|exact IH].
    simpl in Hcell.
    destruct (sweep_cell_spec t l) as (js & Hdet & Hc & Hcount & Hzero).
    rewrite Hc in Hcell. injection Hcell as <-. simpl.
    split; [eauto|]. split; [exact Hcount|].
    intros Hn. apply Hzero. destruct js; [reflexivity | discriminate].
Qed.

Lemma iloc_inside {A : Type} (l : list A) (start stop : Z) :
  (0 <= start <= stop)%Z -> (stop <= Z.of_nat (length l))%Z ->
  iloc l start stop
  = firstn (Z.to_nat stop - Z.to_nat start) (skipn (Z.to_nat start) l).
Proof.
  intros H1 H2. unfold iloc, slice_bound.
  replace (start <? 0)%Z with false by (symmetry; apply Z.ltb_ge; lia).
  replace (stop <? 0)%Z with false by (symmetry; apply Z.ltb_ge; lia).
  rewrite !Z.min_l by lia. rewrite Z2Nat.inj_sub by lia. reflexivity.
Qed.

Lemma detail_window (e : Jump) (context_s sample_rate : Q) :
  (start_idx e < end_idx e)%nat -> (end_idx e < length df)%nat ->
  (0 <= py_int (context_s * sample_rate))%Z ->
  let b := detail_bounds df e context_s sample_rate in
  let segment := detail_segment df e context_s sample_rate in
  (0 <= fst b <= Z.of_nat (start_idx e))%Z
  /\ (Z.of_nat (end_idx e) <= snd b <= Z.of_nat (length df))%Z
  /\ length segment = Z.to_nat (snd b - fst b)
  /\ (forall k, (fst b <= Z.of_nat k < snd b)%Z ->
        nth_error segment (k - Z.to_nat (fst b)) = nth_error df k)
  /\ ((Z.of_nat (end_idx e) < snd b)%Z
      <-> (1 <= py_int (context_s * sample_rate))%Z).
Proof.
  intros Horder Hrange Hctx. unfold detail_segment.
  set (b := detail_bounds df e context_s sample_rate).
  assert (Hb : b = (Z.max 0 (Z.of_nat (start_idx e)
                              - py_int (context_s * sample_rate)),
                    Z.min (Z.of_nat (length df))
                          (Z.of_nat (end_idx e)
                           + py_int (context_s * sample_rate)))%Z)
    by reflexivity.
  set (ctx := py_int (context_s * sample_rate)) in *.
  assert (H1 : (0 <= fst b <= Z.of_nat (start_idx e))%Z) by (rewrite Hb; simpl; lia).
  assert (H2 : (Z.of_nat (end_idx e) <= snd b <= Z.of_nat (length df))%Z)
    by (rewrite Hb; simpl; lia).
  cbv zeta. rewrite iloc_inside by lia.
  split; [exact H1|]. split; [exact H2|]. split; [|split].
  - rewrite length_firstn, length_skipn. lia.
  - intros k Hk. rewrite nth_error_firstn.
    replace (k - Z.to_nat (fst b) <? Z.to_nat (snd b) - Z.to_nat (fst b))%nat
      with true by (symmetry; apply Nat.ltb_lt; lia).
    rewrite nth_error_skipn. f_equal. lia.
  - rewrite Hb. simpl. lia.
Qed.

(** X13.  The segment [plot_jump_detail] cuts for a jump detected in the
    same DataFrame, with a context of zero or more samples: it stays inside
    the DataFrame, starts at or before the takeoff sample and holds every
    sample up to the one before the landing; it holds the landing sample
    itself exactly when the context is at least one sample. *)
Theorem detail_segment_of_detected_jump (c : Thresholds) :
  exists js,
    detect_jumps_offline degrees df c = Ok js
    /\ Forall (fun e =>
         forall context_s sample_rate,
           (0 <= py_int (context_s * sample_rate))%Z ->
           let b := detail_bounds df e context_s sample_rate in
           let segment := detail_segment df e context_s sample_rate in
           (0 <= fst b <= Z.of_nat (start_idx e))%Z
           /\ (Z.of_nat (end_idx e) <= snd b <= Z.of_nat (length df))%Z
           /\ length segment = Z.to_nat (snd b - fst b)
           /\ (forall k, (fst b <= Z.of_nat k < snd b)%Z ->
                 nth_error segment (k - Z.to_nat (fst b)) = nth_error df k)
           /\ ((Z.of_nat (end_idx e) < snd b)%Z
               <-> (1 <= py_int (context_s * sample_rate))%Z)) js.
Proof.
  destruct (detect_returns degrees df c) as (js & H & Hok & _).
  exists js. split; [exact H|]. revert Hok. apply Forall_impl.
  intros e He context_s sample_rate Hctx.
  apply detail_window;
    [apply (jo_order df c e He) | apply (jo_range df c e He) | exact Hctx].
Qed.

End Reports.

(** ** Instances *)

Lemma no_freefall_or_no_impact_no_jump_witness :
  detect_jumps_offline degrees_q df_running default_thresholds = Ok [].
Proof.
  apply no_freefall_or_no_impact_no_jump. left.
  repeat constructor; vm_compute; discriminate.
Defined.

Lemma detection_is_causal_witness :
  run_to degrees_q (df_jump ++ df_second_jump) default_thresholds 3
  = run_to degrees_q df_jump default_thresholds 3.
Proof.
  apply (proj1 (detection_is_causal degrees_q df_jump default_thresholds
                  df_second_jump)).
  simpl. lia.
Defined.

Lemma detection_splits_on_the_ground_witness :
  exists js2,
    detect_jumps_offline degrees_q df_jump default_thresholds
    = Ok [ {| start_idx := 1; end_idx := 3; start_time := 1 # 4;
              end_time := 3 # 4; duration_s := 8 # 16;
              yaw_degrees := degrees_q (32 # 64); peak_accel := 3;
              landing_impact := 3 |} ]
    /\ detect_jumps_offline degrees_q df_second_jump default_thresholds = Ok js2
    /\ detect_jumps_offline degrees_q (df_jump ++ df_second_jump)
                            default_thresholds
       = Ok ([ {| start_idx := 1; end_idx := 3; start_time := 1 # 4;
                  end_time := 3 # 4; duration_s := 8 # 16;
                  yaw_degrees := degrees_q (32 # 64); peak_accel := 3;
                  landing_impact := 3 |} ]
             ++ map (shift_jump (length df_jump)) js2).
Proof.
  apply (detection_splits_on_the_ground degrees_q df_jump df_second_jump
           default_thresholds
           {| state := ground; jump_start_idx := 1;
              accumulated_yaw := 32 # 64;
              jumps := [ {| start_idx := 1; end_idx := 3; start_time := 1 # 4;
                            end_time := 3 # 4; duration_s := 8 # 16;
                            yaw_degrees := degrees_q (32 # 64);
                            peak_accel := 3; landing_impact := 3 |} ] |}).
  - reflexivity.
  - reflexivity.
Defined.


Lemma summary_of_detected_jumps_witness :
  exists js t,
    detect_jumps_offline degrees_q df_two_jumps default_thresholds = Ok js
    /\ summary_totals js = Ok (Some t)
    /\ total t = length js
    /\ min_airtime_s default_thresholds <= max_airtime t.
Proof.
  destruct (proj2 (summary_of_detected_jumps degrees_q df_two_jumps
                     default_thresholds)) as (js & H & Htot).
  assert (Hne : js <> []).
  { pose proof H as H'. vm_compute in H'. injection H' as <-. discriminate. }
  destruct (Htot Hne) as (t & Ht & Hlen & _ & _ & Hmin).
  exists js, t. auto.
Defined.

Lemma threshold_sweep_grid_witness :
  exists r,
    threshold_sweep degrees_q df_quiet [3 # 2] [5 # 2] = Ok [r]
    /\ avg_duration r = 0.
Proof.
  destruct (threshold_sweep_grid degrees_q df_quiet [3 # 2] [5 # 2])
    as (rows & H & _ & _ & Hall).
  pose proof H as H'. vm_compute in H'. injection H' as <-.
  eexists. split; [exact H|].
  apply Forall_cons_iff in Hall. destruct Hall as [(_ & _ & Hzero) _].
  apply Hzero. reflexivity.
Defined.

Lemma detail_segment_of_detected_jump_witness :
  exists e,
    detect_jumps_offline degrees_q df_jump default_thresholds = Ok [e]
    /\ length (detail_segment df_jump e 1 50)
       = Z.to_nat (snd (detail_bounds df_jump e 1 50)
                   - fst (detail_bounds df_jump e 1 50))
    /\ ((Z.of_nat (end_idx e) < snd (detail_bounds df_jump e 1 50))%Z
        <-> (1 <= py_int (1 * 50))%Z).
Proof.
  destruct (detail_segment_of_detected_jump degrees_q df_jump default_thresholds)
    as (js & H & Hall).
  pose proof H as H'. vm_compute in H'. injection H' as <-.
  eexists. split; [exact H|].
  apply Forall_cons_iff in Hall. destruct Hall as [He _].
  destruct (He 1 50) as (_ & _ & Hlen & _ & Hland).
  - vm_compute. discriminate.
  - split; [exact Hlen | exact Hland].
Defined.

(** * The detector on columns that can hold NaN *)

Lemma nan_gtb_fin (x y : Nan.float) :
  Nan.gtb x y = true -> exists a, x = Nan.fin a.
Proof. destruct x as [|a]; simpl; [discriminate | eauto]. Qed.

Lemma nan_fold_maximum_nan (xs : list Nan.float) :
  fold_left Nan.maximum xs Nan.nan = Nan.nan.
Proof. induction xs as [|x xs IH]; simpl; [reflexivity | exact IH]. Qed.

(** [.max()] of an array that holds a NaN is NaN. *)
Lemma nan_fold_maximum_In (xs : list Nan.float) (x : Nan.float) :
  In Nan.nan (x :: xs) -> fold_left Nan.maximum xs x = Nan.nan.
Proof.
  revert x. induction xs as [|y ys IH]; intros x [Hx|Hin]; simpl.
  - exact Hx.
  - destruct Hin.
  - subst x. apply nan_fold_maximum_nan.
  - destruct Hin as [Hy|Hin].
    + subst y. destruct x; simpl; apply nan_fold_maximum_nan.
    + apply IH. right. exact Hin.
Qed.

Lemma nan_fold_maximum_fin (qs : list Q) (q : Q) :
  fold_left Nan.maximum (map Nan.fin qs) (Nan.fin q)
  = Nan.fin (fold_left Qmax qs q).
Proof.
  revert q. induction qs as [|p qs IH]; intros q; simpl; [reflexivity|].
  apply IH.
Qed.

Lemma nan_all_fin (v : list Nan.float) :
  Forall (fun x => x <> Nan.nan) v -> exists qs, v = map Nan.fin qs.
Proof.
  induction 1 as [|x v Hx _ [qs ->]]; [exists []; reflexivity|].
  destruct x as [|q]; [congruence|]. exists (q :: qs). reflexivity.
Qed.

(** [.max()] of an array without NaN is one of its elements and is not
    below any of them. *)
Lemma nan_array_max_spec (v : list Nan.float) (m : Nan.float) :
  Nan.array_max v = Ok m -> Forall (fun x => x <> Nan.nan) v ->
  In m v /\ Forall (fun y => Nan.geb m y = true) v.
Proof.
  intros Hm Hfin. destruct (nan_all_fin v Hfin) as [qs ->].
  destruct qs as [|q qs]; simpl in Hm; [discriminate|].
  injection Hm as <-. rewrite nan_fold_maximum_fin.
  destruct (fold_max_spec qs q) as [Hin Hall]. split.
  - apply (in_map Nan.fin) in Hin. exact Hin.
  - rewrite Forall_forall in *. intros y Hy.
    apply in_map_iff in Hy. destruct Hy as (p & <- & Hp).
    simpl. apply Qgeb_true. apply Hall. exact Hp.
Qed.

Lemma nan_array_max_nan (v : list Nan.float) (m : Nan.float) :
  Nan.array_max v = Ok m -> In Nan.nan v -> m = Nan.nan.
Proof.
  destruct v as [|x xs]; simpl; [discriminate|].
  intros [= <-] Hin. apply nan_fold_maximum_In. exact Hin.
Qed.

Lemma nan_nth_error_slice (a : list Nan.float) (lo hi j : nat) :
  nth_error (Nan.slice a lo hi) j =
  if (j <? hi - lo)%nat then nth_error a (lo + j) else None.
Proof.
  unfold Nan.slice. rewrite nth_error_firstn.
  destruct (j <? hi - lo)%nat; [apply nth_error_skipn | reflexivity].
Qed.

Lemma nan_In_slice (a : list Nan.float) (lo hi : nat) (x : Nan.float) :
  In x (Nan.slice a lo hi) <->
  exists k, (lo <= k < hi)%nat /\ nth_error a k = Some x.
Proof.
  split.
  - intros H. apply In_nth_error in H. destruct H as [j Hj].
    rewrite nan_nth_error_slice in Hj.
    destruct (j <? hi - lo)%nat eqn:E; [|discriminate].
    apply Nat.ltb_lt in E. exists (lo + j)%nat. split; [lia | exact Hj].
  - intros (k & Hk & Hx). apply nth_error_In with (n := (k - lo)%nat).
    rewrite nan_nth_error_slice.
    replace (k - lo <? hi - lo)%nat with true
      by (symmetry; apply Nat.ltb_lt; lia).
    replace (lo + (k - lo))%nat with k by lia. exact Hx.
Qed.

Lemma nan_array_max_total (a : list Nan.float) (lo hi : nat) :
  (lo < hi)%nat -> (lo < length a)%nat ->
  exists m, Nan.array_max (Nan.slice a lo hi) = Ok m.
Proof.
  intros Hlt Hlen.
  destruct (Nan.slice a lo hi) as [|x xs] eqn:E; simpl; [|eauto].
  exfalso.
  assert (H : nth_error (Nan.slice a lo hi) 0 = None) by (rewrite E; reflexivity).
  rewrite nan_nth_error_slice in H.
  replace (0 <? hi - lo)%nat with true in H
    by (symmetry; apply Nat.ltb_lt; lia).
  apply nth_error_None in H. lia.
Qed.

Section NanLoop.

Variable degrees : Nan.float -> Nan.float.
Variable df : Nan.DataFrame.
Variable c : Nan.Thresholds.

Lemma nan_get_map (f : Nan.Row -> Nan.float) (i : nat) (r : Nan.Row) :
  nth_error df i = Some r -> Nan.get (map f df) i = Ok (f r).
Proof.
  intros H. unfold Nan.get. rewrite nth_error_map, H. reflexivity.
Qed.

Lemma nan_nth_col (f : Nan.Row -> Nan.float) (i : nat) (r : Nan.Row) :
  nth_error df i = Some r -> nth_error (map f df) i = Some (f r).
Proof. intros H. rewrite nth_error_map, H. reflexivity. Qed.

Lemma nan_row_at (i : nat) :
  (i < length df)%nat -> exists r, nth_error df i = Some r.
Proof.
  intros H. destruct (nth_error df i) as [r|] eqn:E; [eauto|].
  apply nth_error_None in E. lia.
Qed.

Lemma nan_step_dt_pos (i : nat) (cur prev : Nan.Row) :
  (0 < i)%nat ->
  nth_error df i = Some cur -> nth_error df (i - 1) = Some prev ->
  Nan.step_dt (Nan.timestamps_of df) c i
  = Ok (Nan.sub (Nan.Time_s cur) (Nan.Time_s prev)).
Proof.
  intros Hi Hc Hp. unfold Nan.step_dt, Nan.timestamps_of.
  replace (0 <? i)%nat with true by (symmetry; apply Nat.ltb_lt; exact Hi).
  rewrite (nan_get_map Nan.Time_s i cur Hc).
  rewrite (nan_get_map Nan.Time_s (i - 1) prev Hp). reflexivity.
Qed.

(** An iteration inside the DataFrame returns and keeps the invariants. *)
Lemma nan_process_step (i : nat) (st : Nan.Loop) :
  (i < length df)%nat -> Nan.wf df i st ->
  Forall (Nan.jump_ok df) (Nan.jumps st) ->
  exists st', Nan.process degrees df c i st = Ok st'
              /\ Nan.wf df (S i) st'
              /\ Forall (Nan.jump_ok df) (Nan.jumps st').
Proof.
  intros Hi Hwf Hall. destruct (nan_row_at i Hi) as [cur Hc].
  unfold Nan.process, Nan.loop_body. destruct (Nan.state st) eqn:Hs.
  - unfold Nan.on_ground, Nan.accel_mag_of.
    rewrite (nan_get_map Nan.UserAccel_Mag i cur Hc). cbn [bind].
    destruct (Nan.gtb (Nan.UserAccel_Mag cur) (Nan.takeoff_threshold c)) eqn:E.
    + eexists. split; [reflexivity|]. split; [|exact Hall].
      intros _. simpl. split; [lia|].
      destruct (nan_gtb_fin _ _ E) as [a Ha]. exists a.
      unfold Nan.accel_mag_of. rewrite (nan_nth_col _ i cur Hc), Ha. reflexivity.
    + exists st. split; [reflexivity|]. split; [|exact Hall].
      intros Hn. congruence.
  - destruct Hwf as [Hj Hstart]; [congruence|].
    destruct (nan_row_at (i - 1)) as [prev Hp]; [lia|].
    destruct (nan_row_at (Nan.jump_start_idx st)) as [r0 H0]; [lia|].
    unfold Nan.on_potential_takeoff.
    rewrite (nan_step_dt_pos i cur prev) by (assumption || lia).
    unfold Nan.accel_mag_of, Nan.rotation_z_of, Nan.timestamps_of.
    rewrite (nan_get_map Nan.RotationRate_Z i cur Hc).
    rewrite (nan_get_map Nan.UserAccel_Mag i cur Hc).
    rewrite (nan_get_map Nan.Time_s i cur Hc).
    rewrite (nan_get_map Nan.Time_s _ r0 H0). cbn [bind].
    destruct (Nan.gtb (Nan.sub (Nan.Time_s cur) (Nan.Time_s r0))
                      (Nan.fin (1 # 2))); cbn [bind];
      (eexists; split; [reflexivity|]; split; [|exact Hall];
       intros _; simpl; split; [lia | exact Hstart]).
  - destruct Hwf as [Hj Hstart]; [congruence|].
    destruct (nan_row_at (i - 1)) as [prev Hp]; [lia|].
    destruct (nan_row_at (Nan.jump_start_idx st)) as [r0 H0]; [lia|].
    destruct (nan_array_max_total (Nan.accel_mag_of df)
                (Nan.jump_start_idx st) (i + 1)) as [peak Hpk];
      [lia | unfold Nan.accel_mag_of; rewrite length_map; lia |].
    unfold Nan.on_airborne, Nan.make_jump.
    rewrite (nan_step_dt_pos i cur prev) by (assumption || lia).
    rewrite Hpk.
    unfold Nan.accel_mag_of, Nan.rotation_z_of, Nan.timestamps_of.
    rewrite (nan_get_map Nan.RotationRate_Z i cur Hc).
    rewrite (nan_get_map Nan.UserAccel_Mag i cur Hc).
    rewrite (nan_get_map Nan.Time_s i cur Hc).
    rewrite (nan_get_map Nan.Time_s _ r0 H0). cbn [bind].
    destruct (Nan.gtb (Nan.UserAccel_Mag cur) (Nan.landing_threshold c)) eqn:Eland;
      cbn [andb bind];
      [destruct (Nan.gtb (Nan.sub (Nan.Time_s cur) (Nan.Time_s r0))
                         (Nan.mul (Nan.min_airtime_s c) (Nan.fin (1 # 2))));
       cbn [bind];
       [destruct (Nan.geb (Nan.sub (Nan.Time_s cur) (Nan.Time_s r0))
                          (Nan.min_airtime_s c)); cbn [bind]| ]| ];
      (eexists; split; [reflexivity|]; cbn [Nan.jumps Nan.state fst snd]; split;
       [intros _; simpl; split; [lia | exact Hstart]|]);
      try exact Hall.
    apply Forall_app. split; [exact Hall|]. constructor; [|constructor].
    constructor; simpl.
    + lia.
    + exact Hstart.
    + unfold Nan.accel_mag_of. apply (nan_nth_col _ i cur Hc).
    + destruct (nan_gtb_fin _ _ Eland) as [b Hb]. eauto.
    + exact Hpk.
Qed.

Lemma nan_run_from_app (l1 l2 : list nat) (st : Nan.Loop) :
  Nan.run_from degrees df c (l1 ++ l2) st
  = (st' <- Nan.run_from degrees df c l1 st ;; Nan.run_from degrees df c l2 st').
Proof.
  revert st. induction l1 as [|i l1 IH]; intros st; [reflexivity|].
  unfold Nan.run_from in *. simpl.
  destruct (Nan.loop_body degrees _ _ _ c i st); simpl; [apply IH | reflexivity].
Qed.

(** The loop returns after any number of iterations inside the DataFrame,
    and the invariants hold. *)
Lemma nan_run_to_total (k : nat) :
  (k <= length df)%nat ->
  exists st, Nan.run_to degrees df c k = Ok st
             /\ Nan.wf df k st /\ Forall (Nan.jump_ok df) (Nan.jumps st).
Proof.
  induction k as [|k IH]; intros Hk.
  - exists Nan.init. split; [reflexivity|]. split; [|constructor].
    intros H. simpl in H. congruence.
  - destruct IH as (st & Hrun & Hwf & Hall); [lia|].
    destruct (nan_process_step k st) as (st' & Hp & Hwf' & Hall');
      [lia | exact Hwf | exact Hall |].
    exists st'. split; [|auto].
    unfold Nan.run_to in *. rewrite seq_S, nan_run_from_app, Hrun. cbn [bind].
    unfold Nan.run_from. simpl. unfold Nan.process in Hp. rewrite Hp.
    reflexivity.
Qed.

Lemma nan_jump_ok_peak_spec (e : Nan.Jump) :
  Nan.jump_ok df e -> Nan.peak_spec df e.
Proof.
  intros He. pose proof (Nan.jo_order df e He) as Ho.
  pose proof (Nan.jo_peak df e He) as Hpk.
  pose proof (Nan.jo_impact df e He) as Himp.
  assert (Hin : forall k a, Nan.in_window e k ->
            nth_error (Nan.accel_mag_of df) k = Some a ->
            In a (Nan.slice (Nan.accel_mag_of df) (Nan.start_idx e)
                            (Nan.end_idx e + 1))).
  { intros k a Hk Ha. apply nan_In_slice. exists k.
    unfold Nan.in_window in Hk. split; [lia | exact Ha]. }
  assert (Hrow : forall k, Nan.in_window e k ->
            exists a, nth_error (Nan.accel_mag_of df) k = Some a).
  { intros k Hk. unfold Nan.in_window in Hk.
    destruct (nan_row_at k) as [r Hr]; [lia|].
    exists (Nan.UserAccel_Mag r). apply (nan_nth_col _ k r Hr). }
  constructor.
  - exact Ho.
  - exact Himp.
  - destruct (Nan.jo_start df e He) as [a Ha].
    destruct (Nan.jo_finite df e He) as [b Hb]. eauto.
  - intros Hclean.
    assert (Hfin : Forall (fun x => x <> Nan.nan)
                     (Nan.slice (Nan.accel_mag_of df) (Nan.start_idx e)
                                (Nan.end_idx e + 1))).
    { apply Forall_forall. intros x Hx Hnan. subst x.
      apply nan_In_slice in Hx. destruct Hx as (k & Hk & Hnth).
      apply (Hclean k); [unfold Nan.in_window; lia | exact Hnth]. }
    destruct (nan_array_max_spec _ _ Hpk Hfin) as [Hmem Hup].
    rewrite Forall_forall in Hup.
    assert (Hbound : forall k, Nan.in_window e k ->
              exists a, nth_error (Nan.accel_mag_of df) k = Some a
                        /\ Nan.geb (Nan.peak_accel e) a = true).
    { intros k Hk. destruct (Hrow k Hk) as [a Ha].
      exists a. split; [exact Ha | apply Hup, (Hin k a Hk Ha)]. }
    split; [|split; [exact Hbound | split]].
    + apply nan_In_slice in Hmem. destruct Hmem as (k & Hk & Hnth).
      exists k. split; [unfold Nan.in_window; lia | exact Hnth].
    + apply Hbound. unfold Nan.in_window. lia.
    + apply Hup. apply (Hin (Nan.end_idx e)); [unfold Nan.in_window; lia|].
      exact Himp.
  - intros (k & Hk & Hnth).
    apply (nan_array_max_nan _ _ Hpk). apply (Hin k _ Hk Hnth).
Qed.

(** C5 (as amended).  For every jump returned, [landing_impact] is the
    magnitude at [end_idx], and [peak_accel] is [.max()] of the magnitudes
    over the closed interval of indices [start_idx .. end_idx].  The
    magnitudes at the two ends are numbers.  When no magnitude of the
    interval is NaN, [peak_accel] is one of them and is not below any of
    them, in particular not below the magnitudes at [start_idx] and at
    [end_idx]; when one of them is NaN, [peak_accel] is NaN. *)
Theorem peak_is_window_maximum_unless_nan :
  exists js, Nan.detect_jumps_offline degrees df c = Ok js
             /\ Forall (Nan.peak_spec df) js.
Proof.
  destruct (nan_run_to_total (length df) (Nat.le_refl _)) as (st & H & _ & Hall).
  exists (Nan.jumps st). split.
  - unfold Nan.detect_jumps_offline, Nan.accel_mag_of. rewrite length_map, H.
    reflexivity.
  - revert Hall. apply Forall_impl. exact nan_jump_ok_peak_spec.
Qed.

End NanLoop.

(** C5, a NaN magnitude between push-off and freefall: the jump is
    returned, its peak is NaN, and the peak is not at least the magnitude
    at [start_idx] nor the one at [end_idx]. *)
Lemma nan_in_window_breaks_peak :
  exists e,
    Nan.detect_jumps_offline Nan.degrees_q Nan.df_nan Nan.default_thresholds
    = Ok [e]
    /\ nth_error (Nan.accel_mag_of Nan.df_nan) (Nan.start_idx e)
       = Some (Nan.fin 2)
    /\ nth_error (Nan.accel_mag_of Nan.df_nan) (Nan.end_idx e)
       = Some (Nan.fin 3)
    /\ Nan.peak_accel e = Nan.nan
    /\ Nan.geb (Nan.peak_accel e) (Nan.fin 2) = false
    /\ Nan.geb (Nan.peak_accel e) (Nan.fin 3) = false.
Proof.
  eexists. split; [vm_compute; reflexivity|]. simpl. repeat split.
Qed.

Lemma peak_is_window_maximum_unless_nan_witness :
  exists e,
    Nan.detect_jumps_offline Nan.degrees_q Nan.df_clean Nan.default_thresholds
    = Ok [e]
    /\ Nan.geb (Nan.peak_accel e) (Nan.landing_impact e) = true.
Proof.
  destruct (peak_is_window_maximum_unless_nan Nan.degrees_q Nan.df_clean
              Nan.default_thresholds) as (js & H & Hall).
  pose proof H as H'. vm_compute in H'. injection H' as <-.
  eexists. split; [exact H|].
  apply Forall_cons_iff in Hall. destruct Hall as [He _].
  apply (Nan.ps_max _ _ He).
  intros k [Hlo Hhi]. simpl in Hlo, Hhi.
  destruct k as [|[|[|[|k]]]]; try lia; simpl; discriminate.
Defined.

(** * The detector on a store of objects *)

Section HeapRefinement.

Variable degrees : Q -> Q.
Variable rows : DataFrame.
Variable c : Thresholds.

(** The store before the call, and the DataFrame object in it. *)
Variable s0 : Heap.store.
Variable df : Heap.addr.
Hypothesis df_frame : nth_error s0 df = Some (Heap.Frame rows).

Lemma heap_frame_kept (more : Heap.store) :
  nth_error (s0 ++ more) df = Some (Heap.Frame rows).
Proof.
  rewrite nth_error_app1; [exact df_frame|].
  apply nth_error_Some. congruence.
Qed.

Lemma heap_column_of (f : Row -> Q) (more : Heap.store) :
  Heap.column_of df f (s0 ++ more)
  = Heap.Done (Heap.mkColumn df f) (s0 ++ more).
Proof. unfold Heap.column_of. rewrite heap_frame_kept. reflexivity. Qed.

Lemma heap_values (f : Row -> Q) (more : Heap.store) :
  Heap.values (Heap.mkColumn df f) (s0 ++ more)
  = Heap.Done (map f rows) (s0 ++ more).
Proof. unfold Heap.values. simpl. rewrite heap_frame_kept. reflexivity. Qed.

Lemma heap_item (f : Row -> Q) (more : Heap.store) (i : nat) (r : Row) :
  nth_error rows i = Some r ->
  Heap.item (Heap.mkColumn df f) i (s0 ++ more)
  = Heap.Done (f r) (s0 ++ more).
Proof.
  intros H. unfold Heap.item, Heap.bind_m. rewrite heap_values.
  rewrite (get_map f rows i r H). reflexivity.
Qed.

Lemma heap_slice_max (f : Row -> Q) (more : Heap.store) (lo hi : nat) (m : Q) :
  array_max (slice (map f rows) lo hi) = Ok m ->
  Heap.slice_max (Heap.mkColumn df f) lo hi (s0 ++ more)
  = Heap.Done m (s0 ++ more).
Proof.
  intros H. unfold Heap.slice_max, Heap.bind_m. rewrite heap_values, H.
  reflexivity.
Qed.

Lemma heap_append (js : list Jump) (j : Jump) :
  Heap.append (length s0) j (s0 ++ [Heap.PyList js])
  = Heap.Done tt (s0 ++ [Heap.PyList (js ++ [j])]).
Proof.
  unfold Heap.append. rewrite nth_error_app2 by lia.
  rewrite Nat.sub_diag. cbn [nth_error].
  rewrite firstn_app, Nat.sub_diag, firstn_all. cbn [firstn].
  rewrite app_nil_r.
  rewrite skipn_all2 by (rewrite length_app; simpl; lia). reflexivity.
Qed.

Lemma heap_step_dt (more : Heap.store) (i : nat) (cur prev : Row) :
  (0 < i)%nat -> nth_error rows i = Some cur ->
  nth_error rows (i - 1) = Some prev ->
  Heap.step_dt (Heap.mkColumn df Time_s) c i (s0 ++ more)
  = Heap.Done (Time_s cur - Time_s prev) (s0 ++ more).
Proof.
  intros Hi Hc Hp. unfold Heap.step_dt.
  replace (0 <? i)%nat with true by (symmetry; apply Nat.ltb_lt; exact Hi).
  unfold Heap.bind_m.
  rewrite (heap_item Time_s more i cur Hc).
  rewrite (heap_item Time_s more (i - 1) prev Hp). reflexivity.
Qed.

(** An iteration on the store does to the local variables and to the list
    [jumps] what the iteration on the columns does to the loop variables,
    and touches nothing else. *)
Lemma heap_loop_body (i : nat) (st st' : Loop) :
  (i < length rows)%nat -> wf i st ->
  process degrees rows c i st = Ok st' ->
  Heap.loop_body degrees (Heap.mkColumn df UserAccel_Mag) (Heap.mkColumn df RotationRate_Z)
    (Heap.mkColumn df Time_s) (length s0) c i
                 (locals_of st) (s0 ++ [Heap.PyList (jumps st)])
  = Heap.Done (locals_of st') (s0 ++ [Heap.PyList (jumps st')]).
Proof.
  intros Hi Hwf Hp.
  destruct (process_cases degrees rows c i st Hi Hwf) as (cur & Hc & H).
  unfold Heap.loop_body.
  change (Heap.state (locals_of st)) with (state st).
  destruct (state st) eqn:Hs.
  - rewrite H in Hp. injection Hp as <-.
    unfold Heap.on_ground, Heap.bind_m.
    rewrite (heap_item UserAccel_Mag _ i cur Hc). unfold next_ground.
    destruct (Qgtb (UserAccel_Mag cur) (takeoff_threshold c)); reflexivity.
  - destruct H as (prev & r0 & Hj & Hprev & H0 & H).
    rewrite H in Hp. injection Hp as <-.
    unfold Heap.on_potential_takeoff, Heap.bind_m.
    rewrite (heap_step_dt _ i cur prev) by (assumption || lia).
    rewrite (heap_item RotationRate_Z _ i cur Hc).
    rewrite (heap_item UserAccel_Mag _ i cur Hc).
    rewrite (heap_item Time_s _ i cur Hc).
    change (Heap.jump_start_idx (locals_of st)) with (jump_start_idx st).
    change (Heap.accumulated_yaw (locals_of st)) with (accumulated_yaw st).
    rewrite (heap_item Time_s _ _ r0 H0).
    unfold next_potential_takeoff, elapsed_between.
    destruct (Qgtb (Time_s cur - Time_s r0) (1 # 2)); simpl;
      rewrite ?(heap_item UserAccel_Mag _ i cur Hc); reflexivity.
  - destruct H as (prev & r0 & peak & Hj & Hprev & H0 & Hpk & H).
    rewrite H in Hp. injection Hp as <-.
    unfold Heap.on_airborne, Heap.append_jump, Heap.bind_m.
    rewrite (heap_step_dt _ i cur prev) by (assumption || lia).
    rewrite (heap_item RotationRate_Z _ i cur Hc).
    rewrite (heap_item Time_s _ i cur Hc).
    change (Heap.jump_start_idx (locals_of st)) with (jump_start_idx st).
    change (Heap.accumulated_yaw (locals_of st)) with (accumulated_yaw st).
    rewrite (heap_item Time_s _ _ r0 H0).
    rewrite (heap_item UserAccel_Mag _ i cur Hc).
    unfold next_airborne, impact_gate, elapsed_between.
    destruct (Qgtb (UserAccel_Mag cur) (landing_threshold c)); simpl;
      [|reflexivity].
    destruct (Qgtb (Time_s cur - Time_s r0) (min_airtime_s c * (1 # 2))); simpl;
      [|reflexivity].
    destruct (Qgeb (Time_s cur - Time_s r0) (min_airtime_s c)); simpl;
      [|reflexivity].
    rewrite (heap_slice_max UserAccel_Mag _ _ _ peak Hpk).
    rewrite (heap_item Time_s _ _ r0 H0).
    rewrite (heap_item Time_s _ i cur Hc).
    rewrite (heap_item UserAccel_Mag _ i cur Hc).
    rewrite heap_append. reflexivity.
Qed.

Lemma heap_run_loop_app (jumps : Heap.addr) (l1 l2 : list nat)
    (v : Heap.Locals) (s : Heap.store) :
  Heap.run_loop degrees (Heap.mkColumn df UserAccel_Mag) (Heap.mkColumn df RotationRate_Z)
    (Heap.mkColumn df Time_s) jumps c (l1 ++ l2) v s
  = Heap.bind_m
      (Heap.run_loop degrees (Heap.mkColumn df UserAccel_Mag) (Heap.mkColumn df RotationRate_Z)
    (Heap.mkColumn df Time_s) jumps c l1 v)
      (Heap.run_loop degrees (Heap.mkColumn df UserAccel_Mag) (Heap.mkColumn df RotationRate_Z)
    (Heap.mkColumn df Time_s) jumps c l2) s.
Proof.
  revert v s. induction l1 as [|i l1 IH]; intros v s; [reflexivity|].
  cbn [app Heap.run_loop]. unfold Heap.bind_m.
  destruct (Heap.loop_body degrees _ _ _ jumps c i v s) as [v' s'|e s'|];
    [|reflexivity | reflexivity].
  rewrite IH. reflexivity.
Qed.

(** The loop on the store follows the loop on the columns. *)
Lemma heap_run_loop (k : nat) :
  (k <= length rows)%nat ->
  exists st,
    run_to degrees rows c k = Ok st
    /\ Heap.run_loop degrees (Heap.mkColumn df UserAccel_Mag) (Heap.mkColumn df RotationRate_Z)
    (Heap.mkColumn df Time_s) (length s0) c
                     (seq 0 k) Heap.init (s0 ++ [Heap.PyList []])
       = Heap.Done (locals_of st) (s0 ++ [Heap.PyList (jumps st)]).
Proof.
  induction k as [|k IH]; intros Hk.
  - exists init. split; reflexivity.
  - destruct IH as (st & Hrun & Hheap); [lia|].
    assert (Hwf : wf k st)
      by (apply (run_to_wf degrees rows c k st); [lia | exact Hrun]).
    destruct (process_total degrees rows c k st) as (st' & Hp & _);
      [lia | exact Hwf |].
    exists st'. split.
    + unfold run_to in *. rewrite seq_S, run_from_app, Hrun.
      cbn [bind Nat.add]. rewrite run_from_cons, Hp. reflexivity.
    + rewrite seq_S, heap_run_loop_app. unfold Heap.bind_m at 1.
      rewrite Hheap. cbn [Nat.add Heap.run_loop]. unfold Heap.bind_m.
      rewrite (heap_loop_body k st st') by (assumption || lia). reflexivity.
Qed.

(** A call on the store returns a new list that holds the jumps the
    function of the columns gives, and leaves the rest of the store as it
    was. *)
Lemma heap_detect :
  exists js,
    detect_jumps_offline degrees rows c = Ok js
    /\ Heap.detect_jumps_offline degrees df c s0
       = Heap.Done (length s0) (s0 ++ [Heap.PyList js]).
Proof.
  destruct (heap_run_loop (length rows) (Nat.le_refl _)) as (st & Hrun & Hheap).
  exists (jumps st). split.
  - rewrite detect_unfold, Hrun. reflexivity.
  - unfold Heap.detect_jumps_offline, Heap.bind_m.
    rewrite <- (app_nil_r s0) at 1 2 3.
    rewrite !heap_column_of. rewrite app_nil_r.
    unfold Heap.new_list, Heap.len, Heap.bind_m.
    rewrite heap_values. unfold Heap.ret. rewrite length_map, Hheap.
    reflexivity.
Qed.

End HeapRefinement.

(** C8.  Detection is a function of the samples and the thresholds alone.
    In any store, a call on a DataFrame object changes no object that was
    there before, creates one new list, and that list holds the jumps the
    rows and the thresholds determine, whatever else the store holds and
    wherever the DataFrame is.  So a second call with the same thresholds,
    made in the store the first call left (or left by a call with other
    thresholds), returns another new list with the same jumps, and the list
    of the first call is as it was. *)
Theorem detection_keeps_no_state (degrees : Q -> Q) (s : Heap.store)
    (df : Heap.addr) (rows : DataFrame) (c : Thresholds) :
  nth_error s df = Some (Heap.Frame rows) ->
  exists js,
    detect_jumps_offline degrees rows c = Ok js
    /\ Heap.detect_jumps_offline degrees df c s
       = Heap.Done (length s) (s ++ [Heap.PyList js])
    /\ Heap.detect_twice degrees df c c s
       = Heap.Done (length s, S (length s))
                   (s ++ [Heap.PyList js; Heap.PyList js])
    /\ (forall c', exists js',
          Heap.detect_twice degrees df c' c s
          = Heap.Done (length s, S (length s))
                      (s ++ [Heap.PyList js'; Heap.PyList js]))
    /\ (forall s' df',
          nth_error s' df' = Some (Heap.Frame rows) ->
          Heap.detect_jumps_offline degrees df' c s'
          = Heap.Done (length s') (s' ++ [Heap.PyList js])).
Proof.
  intros Hdf.
  destruct (heap_detect degrees rows c s df Hdf) as (js & Hpure & Hcall).
  assert (Hnext : forall c1 js1,
            Heap.detect_jumps_offline degrees df c1 s
            = Heap.Done (length s) (s ++ [Heap.PyList js1]) ->
            Heap.detect_twice degrees df c1 c s
            = Heap.Done (length s, S (length s))
                        (s ++ [Heap.PyList js1; Heap.PyList js])).
  { intros c1 js1 H1. unfold Heap.detect_twice, Heap.bind_m. rewrite H1.
    assert (Hdf1 : nth_error (s ++ [Heap.PyList js1]) df
                   = Some (Heap.Frame rows))
      by (apply heap_frame_kept; exact Hdf).
    destruct (heap_detect degrees rows c _ df Hdf1) as (js2 & Hpure2 & Hcall2).
    rewrite Hcall2. rewrite Hpure in Hpure2. injection Hpure2 as <-.
    rewrite length_app. simpl length. rewrite Nat.add_1_r, <- app_assoc.
    reflexivity. }
  exists js. split; [exact Hpure|]. split; [exact Hcall|].
  split; [apply Hnext, Hcall|]. split.
  - intros c'.
    destruct (heap_detect degrees rows c' s df Hdf) as (js' & _ & Hcall').
    exists js'. apply Hnext, Hcall'.
  - intros s' df' Hdf'.
    destruct (heap_detect degrees rows c s' df' Hdf') as (js' & Hpure' & Hcall').
    rewrite Hpure in Hpure'. injection Hpure' as <-. exact Hcall'.
Qed.

Lemma detection_keeps_no_state_witness :
  exists js,
    detect_jumps_offline degrees_q df_two_jumps default_thresholds = Ok js
    /\ Heap.detect_jumps_offline degrees_q 1%nat default_thresholds
                                 Heap.sample_store
       = Heap.Done (length Heap.sample_store)
                   (Heap.sample_store ++ [Heap.PyList js])
    /\ Heap.detect_twice degrees_q 1%nat default_thresholds default_thresholds
                         Heap.sample_store
       = Heap.Done (length Heap.sample_store, S (length Heap.sample_store))
                   (Heap.sample_store ++ [Heap.PyList js; Heap.PyList js]).
Proof.
  destruct (detection_keeps_no_state degrees_q Heap.sample_store 1%nat
              df_two_jumps default_thresholds eq_refl)
    as (js & H1 & H2 & H3 & _).
  exists js. auto.
Defined.
